(** * Retirement projector: the projection engine of [retirement-projector.py]

    A shallow embedding of the financial core of the program: the two
    configuration validators, the accumulation projection
    ([calculate_portfolio_growth]), the retirement drawdown and its scenario
    table ([calculate_withdrawal_scenarios]), the weighted growth rate of the
    summary panel and the configuration export.

    Modelling choices.
    - Amounts, rates and allocations are Python numbers (int or float); they
      are embedded as rationals [Q] and numeric equality is [==] on [Q].  The
      projection and drawdown recurrences are stated on exact values.  Where
      the outcome is decided by binary64 rounding (the tolerance test of the
      retirement validator and the text of a rate label) the rounding is
      written out with [round64].
    - A Python [str] is a [string] of 8-bit code points.
    - A Python [dict] with string keys is a [gmap string _]; a Python [list]
      is a [list]; the pandas frame built from a list of row dicts is the list
      of its rows.
    - [st.session_state] is passed explicitly as a record.
    - An uncaught Python exception is [None]. *)

From Stdlib Require Import QArith Qround Qabs Qpower Lqa Lia ZArith Ascii String.
From stdpp Require Import gmap strings list fin_maps pretty.

Open Scope Q_scope.

(** ** Python primitives *)

(** [range(n)] for an integer [n]: empty when [n <= 0]. *)
Definition py_range (n : Z) : list Z :=
  Z.of_nat <$> seq 0 (Z.to_nat n).

(** [sum(xs)]: starts from [0] and adds from the left. *)
Definition py_sum (xs : list Q) : Q := foldl Qplus 0 xs.

(** [max(0, x)]: the first argument unless the second is strictly greater. *)
Definition py_max0 (x : Q) : Q := if Qlt_le_dec 0 x then x else 0.

(** [x < y] as a truth value. *)
Definition Qlt_bool (x y : Q) : bool := negb (Qle_bool y x).

(** [a / b] on Python numbers raises [ZeroDivisionError] when [b] is zero. *)
Definition py_div (a b : Q) : option Q :=
  if Qeq_bool b 0 then None else Some (a / b).

(** ** Configuration records *)

(** An entry of [st.session_state.portfolios]:
    [{"name": .., "initial": .., "annual": .., "rate": ..}]. *)
Record Portfolio := mkPortfolio {
  name : string;
  initial : Q;
  annual : Q;
  rate : Q
}.

(** An entry of [st.session_state.retirement_portfolios]:
    [{"name": .., "allocation": .., "rate": ..}]. *)
Record RetirementPortfolio := mkRetirementPortfolio {
  ret_name : string;
  allocation : Q;
  ret_rate : Q
}.

Record session_state := mkSession {
  portfolios : list Portfolio;
  retirement_portfolios : list RetirementPortfolio
}.

(** ** Accumulation: [calculate_portfolio_growth] *)

(** The inner loop [for y in range(year): value = (value + annual) * (1 + rate)],
    run [n] times from [value]. *)
Fixpoint growth_loop (portfolio : Portfolio) (n : nat) (value : Q) : Q :=
  match n with
  | O => value
  | S k => growth_loop portfolio k ((value + annual portfolio) * (1 + rate portfolio))
  end.

(** The value of one portfolio in the row of [year]: the [if year == 0] branch
    reads [initial], the other branch replays the loop from [initial]. *)
Definition portfolio_value (portfolio : Portfolio) (year : Z) : Q :=
  if (year =? 0)%Z then initial portfolio
  else growth_loop portfolio (Z.to_nat year) (initial portfolio).

(** One pass of [for portfolio in portfolios] on the pair
    [(year_data, total_value)]. *)
Definition year_step (year : Z) (acc : gmap string Q * Q) (portfolio : Portfolio)
  : gmap string Q * Q :=
  let value := portfolio_value portfolio year in
  (<[name portfolio := value]> (fst acc), snd acc + value).

(** The row dict of one year: [{"Year": year}], then one key per portfolio
    name, then ["Total"]. *)
Definition year_row (portfolios : list Portfolio) (year : Z) : gmap string Q :=
  let acc := foldl (year_step year) ({["Year" := inject_Z year]}, 0) portfolios in
  <["Total" := snd acc]> (fst acc).

Definition calculate_portfolio_growth (portfolios : list Portfolio) (years : Z)
  : list (gmap string Q) :=
  year_row portfolios <$> py_range (years + 1).

(** The recurrence the projection is specified by: [initial] at year 0, then
    [(previous + annual) * (1 + rate)]. *)
Fixpoint projected_value (portfolio : Portfolio) (y : nat) : Q :=
  match y with
  | O => initial portfolio
  | S k => (projected_value portfolio k + annual portfolio) * (1 + rate portfolio)
  end.

(** The total of the recurrence over all components. *)
Definition projected_total (portfolios : list Portfolio) (y : nat) : Q :=
  py_sum ((fun p => projected_value p y) <$> portfolios).

(** ** Retirement: [calculate_withdrawal_scenarios] *)

(** One scenario dict of the result. *)
Record Scenario := mkScenario {
  annual_withdrawal : Q;
  monthly_withdrawal : Q;
  portfolio_values : list Q;
  final_value : Q;
  blended_rate : Q
}.

(** [sum(p["allocation"] * p["rate"] for p in retirement_portfolios)]. *)
Definition blended_growth_rate (retirement_portfolios : list RetirementPortfolio) : Q :=
  py_sum ((fun p => allocation p * ret_rate p) <$> retirement_portfolios).

(** One pass of [for year in range(retirement_years + 1)] on the pair
    [(current_value, portfolio_values)].  The value appended is clamped by
    [max(0, _)]; the value kept in [current_value] is not. *)
Definition drawdown_step (annual_withdrawal blended_growth_rate : Q)
    (acc : Q * list Q) (year : Z) : Q * list Q :=
  let current_value := fst acc in
  if (year =? 0)%Z then (current_value, snd acc ++ [current_value])
  else
    let current_value := (current_value - annual_withdrawal) * (1 + blended_growth_rate) in
    (current_value, snd acc ++ [py_max0 current_value]).

(** The list [portfolio_values] after the year loop. *)
Definition drawdown (final_portfolio_value blended_growth_rate annual_withdrawal : Q)
    (retirement_years : Z) : list Q :=
  snd (foldl (drawdown_step annual_withdrawal blended_growth_rate)
             (final_portfolio_value, []) (py_range (retirement_years + 1))).

(** The body of [for rate in withdrawal_rates] up to the dict literal.
    [portfolio_values[-1]] raises [IndexError] on an empty list. *)
Definition scenario_of (final_portfolio_value blended_growth_rate : Q)
    (retirement_years : Z) (rate : Q) : option Scenario :=
  let annual_withdrawal := final_portfolio_value * rate in
  let portfolio_values :=
    drawdown final_portfolio_value blended_growth_rate annual_withdrawal retirement_years in
  final ← last portfolio_values;
  Some {| annual_withdrawal := annual_withdrawal;
          monthly_withdrawal := annual_withdrawal / 12;
          portfolio_values := portfolio_values;
          final_value := final;
          blended_rate := blended_growth_rate |}.

(** Rounding to the nearest integer, ties to even: the rounding of the
    [.1] precision of a format specification. *)
Definition round_half_even (x : Q) : Z :=
  let f := Qfloor x in
  match Qcompare (x - inject_Z f) (1 # 2) with
  | Lt => f
  | Gt => (f + 1)%Z
  | Eq => if Z.even f then f else (f + 1)%Z
  end.

(** *** binary64 rounding *)

(** The binade of a non-zero [x]: the [k] with [2^k <= |x| < 2^(k+1)]. *)
Definition binade (x : Q) : Z :=
  let a := Qabs x in
  if Qlt_le_dec a 1 then (- Z.log2_up (Qceiling (/ a)))%Z else Z.log2 (Qfloor a).

(** The binary64 value nearest to [x], ties to even: 53 significant bits,
    spacing never below [2^-1074] (gradual underflow).  The exponent is not
    bounded above: a value beyond the largest double stands for the infinity
    the program would hold, and compares as it does. *)
Definition round64 (x : Q) : Q :=
  if Qeq_bool x 0 then 0
  else
    let e := Z.max (binade x - 52) (-1074) in
    inject_Z (round_half_even (x / 2 ^ e)) * 2 ^ e.

(** [x + y], [x - y] and [x * y] on floats. *)
Definition fl_add (x y : Q) : Q := round64 (x + y).
Definition fl_sub (x y : Q) : Q := round64 (x - y).
Definition fl_mul (x y : Q) : Q := round64 (x * y).

(** [sum(xs)] on floats: starts from [0] and adds from the left, rounding
    after every addition.  (Interpreters from CPython 3.12 on carry a
    correction term along this sum; on the allocations 0.6 and 0.41 used
    below both give the same total.) *)
Definition float_sum (xs : list Q) : Q := foldl fl_add 0 xs.

(** [f"{rate:.1%}"]: the float [rate * 100] in fixed notation with one
    decimal, followed by a percent sign.  The product is rounded to binary64;
    the decimal is the one nearest to the exact value of that product, ties to
    even.  [tenths] is the magnitude in tenths of a percent. *)
Definition percent_label (rate : Q) : string :=
  let percent := fl_mul rate 100 in
  let tenths := round_half_even (Qabs percent * 10) in
  (if Qlt_le_dec rate 0 then "-" else "")
    +:+ pretty (tenths / 10)%Z +:+ "." +:+ pretty (tenths mod 10)%Z +:+ "%".

(** One pass of [for rate in withdrawal_rates] on the dict [scenarios]. *)
Definition scenarios_step (final_portfolio_value blended_growth_rate : Q)
    (retirement_years : Z) (acc : option (gmap string Scenario)) (rate : Q)
  : option (gmap string Scenario) :=
  scenarios ← acc;
  scenario ← scenario_of final_portfolio_value blended_growth_rate retirement_years rate;
  Some (<[percent_label rate := scenario]> scenarios).

Definition calculate_withdrawal_scenarios (final_portfolio_value : Q)
    (withdrawal_rates : list Q) (retirement_years : Z)
    (retirement_portfolios : list RetirementPortfolio)
  : option (gmap string Scenario) :=
  let blended_growth_rate := blended_growth_rate retirement_portfolios in
  foldl (scenarios_step final_portfolio_value blended_growth_rate retirement_years)
        (Some ∅) withdrawal_rates.

(** The drawdown recurrence as specified: the clamped entry is carried
    forward, [entry y = max(0, (entry (y-1) - annual_withdrawal) * (1 + rate))]. *)
Fixpoint clamped_balance (starting_value blended_rate annual_withdrawal : Q) (y : nat) : Q :=
  match y with
  | O => starting_value
  | S k => py_max0 ((clamped_balance starting_value blended_rate annual_withdrawal k
                     - annual_withdrawal) * (1 + blended_rate))
  end.

(** The balance the loop keeps in [current_value]: never clamped. *)
Fixpoint running_balance (starting_value blended_rate annual_withdrawal : Q) (y : nat) : Q :=
  match y with
  | O => starting_value
  | S k => (running_balance starting_value blended_rate annual_withdrawal k
            - annual_withdrawal) * (1 + blended_rate)
  end.

(** The entry the loop appends for year [y]: the starting value as it is
    for year 0, the clamped running balance afterwards. *)
Definition drawdown_entry (starting_value blended_rate annual_withdrawal : Q) (y : nat) : Q :=
  match y with
  | O => starting_value
  | S _ => py_max0 (running_balance starting_value blended_rate annual_withdrawal y)
  end.

(** The statement of the drawdown contract for one input: length
    [years + 1], year 0 is the starting value, each later entry follows the
    clamped recurrence from the entry before it, a zero entry is followed by
    zero entries only, and the trajectory as a whole is the clamped
    recurrence started at the starting value. *)
Definition drawdown_contract (starting_value blended_rate withdrawal_rate : Q)
    (years : Z) : Prop :=
  let annual_withdrawal := starting_value * withdrawal_rate in
  let trajectory := drawdown starting_value blended_rate annual_withdrawal years in
  length trajectory = Z.to_nat (years + 1)
  ∧ trajectory !! 0%nat = Some starting_value
  ∧ (∀ y : nat, (1 ≤ y)%nat → (Z.of_nat y ≤ years)%Z →
       ∃ previous entry,
         trajectory !! (y - 1)%nat = Some previous
         ∧ trajectory !! y = Some entry
         ∧ entry == py_max0 ((previous - annual_withdrawal) * (1 + blended_rate)))
  ∧ (∀ (i j : nat) (zero later : Q), (i ≤ j)%nat →
       trajectory !! i = Some zero → zero == 0 →
       trajectory !! j = Some later → later == 0)
  ∧ (∀ y : nat, (Z.of_nat y ≤ years)%Z →
       ∃ entry, trajectory !! y = Some entry
         ∧ entry == clamped_balance starting_value blended_rate annual_withdrawal y).

(** ** Validators: [validate_portfolios], [validate_retirement_portfolios] *)

(** The characters [str.strip()] removes: the code points below 256 for
    which [str.isspace] holds (tab to carriage return, the four separators
    0x1c-0x1f, space, next-line and no-break space). *)
Definition py_isspace (c : ascii) : bool :=
  let n := N_of_ascii c in
  ((9 <=? n) && (n <=? 13) || (28 <=? n) && (n <=? 32) || (n =? 133) || (n =? 160))%N.

(** [s.lstrip()] on the characters of [s]. *)
Fixpoint py_lstrip (s : list ascii) : list ascii :=
  match s with
  | [] => []
  | c :: rest => if py_isspace c then py_lstrip rest else s
  end.

(** [s.strip()]: whitespace dropped at both ends. *)
Definition py_strip (s : string) : string :=
  string_of_list_ascii (rev (py_lstrip (rev (py_lstrip (list_ascii_of_string s))))).

(** Truth value of a [str]: false only for the empty string. *)
Definition py_truthy (s : string) : bool :=
  match s with EmptyString => false | String _ _ => true end.

(** The body of [for portfolio in st.session_state.portfolios] with its three
    early [return False]; falling off the loop is [return True]. *)
Fixpoint validate_portfolios_loop (ps : list Portfolio) : bool :=
  match ps with
  | [] => true
  | portfolio :: rest =>
      if negb (py_truthy (py_strip (name portfolio))) then false
      else if Qlt_bool (initial portfolio) 0 || Qlt_bool (annual portfolio) 0
              || Qlt_bool (rate portfolio) 0 then false
      else if Qeq_bool (initial portfolio) 0 && Qeq_bool (annual portfolio) 0 then false
      else validate_portfolios_loop rest
  end.

Definition validate_portfolios (st : session_state) : bool :=
  validate_portfolios_loop (portfolios st).

(** The loop of [validate_retirement_portfolios]. *)
Fixpoint validate_retirement_loop (ps : list RetirementPortfolio) : bool :=
  match ps with
  | [] => true
  | portfolio :: rest =>
      if negb (py_truthy (py_strip (ret_name portfolio))) then false
      else if Qlt_bool (allocation portfolio) 0 || Qlt_bool (ret_rate portfolio) 0
           then false
      else if Qeq_bool (allocation portfolio) 0 then false
      else validate_retirement_loop rest
  end.

(** [abs(total_allocation - 1.0) > 0.01] is evaluated on floats: the sum and
    the difference are rounded, and [0.01] is the double nearest to 1/100. *)
Definition validate_retirement_portfolios (st : session_state) : bool :=
  match retirement_portfolios st with
  | [] => false
  | _ =>
      let total_allocation := float_sum (allocation <$> retirement_portfolios st) in
      if Qlt_bool (round64 (1 # 100)) (Qabs (fl_sub total_allocation 1)) then false
      else validate_retirement_loop (retirement_portfolios st)
  end.

(** A name with at least one character that is not whitespace. *)
Definition non_blank (s : string) : Prop :=
  ∃ c, c ∈ list_ascii_of_string s ∧ py_isspace c = false.

(** The per-component conditions of an accumulation configuration. *)
Definition component_ok (p : Portfolio) : Prop :=
  non_blank (name p) ∧ 0 <= initial p ∧ 0 <= annual p ∧ 0 <= rate p
  ∧ ¬ (initial p == 0 ∧ annual p == 0).


(** ** Summary panel: the weighted average growth rate of [main] *)

(** [sum(p["initial"] * p["rate"] ..) / total_initial if total_initial > 0 else 0].
    The quotient is evaluated only in the first branch. *)
Definition weighted_rate (st : session_state) : option Q :=
  let total_initial := py_sum (initial <$> portfolios st) in
  if Qlt_le_dec 0 total_initial
  then py_div (py_sum ((fun p => initial p * rate p) <$> portfolios st)) total_initial
  else Some 0.

(** ** Configuration export: [save_portfolio_config] *)

(** The values [json.dumps] writes.  An object keeps the order of its keys. *)
#[local] Unset Elimination Schemes.
Inductive json :=
  | JNumber (q : Q)
  | JString (s : string)
  | JArray (items : list json)
  | JObject (members : list (string * json)).
#[local] Set Elimination Schemes.

(** The JSON object of one portfolio dict. *)
Definition portfolio_json (p : Portfolio) : json :=
  JObject [("name", JString (name p)); ("initial", JNumber (initial p));
           ("annual", JNumber (annual p)); ("rate", JNumber (rate p))].

(** The document of [config]; [now] is the text of
    [pd.Timestamp.now().isoformat()], read from the clock by the caller. *)
Definition save_portfolio_config (st : session_state) (now : string) : json :=
  JObject [("portfolios", JArray (portfolio_json <$> portfolios st));
           ("timestamp", JString now)].

(** The first member of a list of members with the given key. *)
Fixpoint member_lookup (key : string) (members : list (string * json)) : option json :=
  match members with
  | [] => None
  | (k, v) :: rest => if bool_decide (k = key) then Some v else member_lookup key rest
  end.

(** Member lookup in a JSON object. *)
Definition json_member (key : string) (doc : json) : option json :=
  match doc with
  | JObject members => member_lookup key members
  | _ => None
  end.

Definition json_number (doc : json) : option Q :=
  match doc with JNumber q => Some q | _ => None end.

Definition json_string (doc : json) : option string :=
  match doc with JString s => Some s | _ => None end.

(** Modelled from the spec: the program has no import path, so the reading
    of an exported document back into a component list is taken from the
    round-trip property: each element of the [portfolios] array is read as a
    component through its four keys. *)
Definition portfolio_of_json (doc : json) : option Portfolio :=
  n ← json_member "name" doc ≫= json_string;
  i ← json_member "initial" doc ≫= json_number;
  a ← json_member "annual" doc ≫= json_number;
  r ← json_member "rate" doc ≫= json_number;
  Some (mkPortfolio n i a r).

(** Modelled from the spec: the [portfolios] array of an exported document,
    fed back as component input. *)
Definition portfolios_of_config (doc : json) : option (list Portfolio) :=
  match json_member "portfolios" doc with
  | Some (JArray items) => mapM portfolio_of_json items
  | _ => None
  end.

(** The statement of the projection contract for one input: [years + 1]
    rows, row [y] is labelled [y], holds under each component's name the value
    of the recurrence at [y], and holds their sum under ["Total"]; a horizon of
    0 gives one row whose total is the sum of the initial values. *)
Definition projection_contract (ps : list Portfolio) (years : Z) : Prop :=
  let frame := calculate_portfolio_growth ps years in
  length frame = S (Z.to_nat years)
  ∧ (∀ y : nat, (y ≤ Z.to_nat years)%nat →
       ∃ row year total,
         frame !! y = Some row
         ∧ row !! "Year" = Some year ∧ year == inject_Z (Z.of_nat y)
         ∧ (∀ p, p ∈ ps → ∃ v, row !! name p = Some v ∧ v == projected_value p y)
         ∧ row !! "Total" = Some total ∧ total == projected_total ps y)
  ∧ (years = 0%Z →
       ∃ row total, frame = [row]
         ∧ row !! "Total" = Some total ∧ total == py_sum (initial <$> ps)).

(** ** Session actions of [main] and the templates *)

(** The session [main] starts from when the keys are not yet in
    [st.session_state]. *)
Definition initial_session : session_state :=
  mkSession
    [mkPortfolio "Primary Portfolio" 50000 10000 0.07]
    [mkRetirementPortfolio "Conservative Bonds" 0.60 0.03;
     mkRetirementPortfolio "Dividend Stocks" 0.40 0.06].

(** The dict [templates] of [apply_template]. *)
Definition templates : gmap string (list Portfolio) :=
  list_to_map
    [("Conservative",
      [mkPortfolio "Government Bonds" 30000 5000 0.03;
       mkPortfolio "Corporate Bonds" 20000 3000 0.04;
       mkPortfolio "Dividend Stocks" 15000 2000 0.06]);
     ("Balanced",
      [mkPortfolio "Index Funds" 40000 8000 0.07;
       mkPortfolio "Bonds" 25000 4000 0.04;
       mkPortfolio "International Stocks" 15000 3000 0.08]);
     ("Aggressive",
      [mkPortfolio "Growth Stocks" 35000 7000 0.10;
       mkPortfolio "Tech Stocks" 25000 5000 0.12;
       mkPortfolio "Emerging Markets" 15000 3000 0.09])].

(** The dict [retirement_templates] of [apply_retirement_template]. *)
Definition retirement_templates : gmap string (list RetirementPortfolio) :=
  list_to_map
    [("Conservative",
      [mkRetirementPortfolio "Treasury Bonds" 0.70 0.03;
       mkRetirementPortfolio "High-Yield Savings" 0.20 0.02;
       mkRetirementPortfolio "Dividend Stocks" 0.10 0.05]);
     ("Moderate",
      [mkRetirementPortfolio "Government Bonds" 0.50 0.03;
       mkRetirementPortfolio "Corporate Bonds" 0.30 0.04;
       mkRetirementPortfolio "Dividend Stocks" 0.20 0.06]);
     ("Balanced",
      [mkRetirementPortfolio "Bonds" 0.40 0.035;
       mkRetirementPortfolio "Dividend Stocks" 0.40 0.06;
       mkRetirementPortfolio "Growth Stocks" 0.20 0.08])].

(** [apply_template]: a known name replaces the accumulation list, any
    other name leaves the session as it is. *)
Definition apply_template (template_name : string) (st : session_state) : session_state :=
  match templates !! template_name with
  | Some ps => mkSession ps (retirement_portfolios st)
  | None => st
  end.

Definition apply_retirement_template (template_name : string) (st : session_state)
  : session_state :=
  match retirement_templates !! template_name with
  | Some ps => mkSession (portfolios st) ps
  | None => st
  end.

(** The body of the "Add Portfolio" handler: the append of
    [{"name": f"Portfolio {len + 1}", "initial": 0, "annual": 0, "rate": 0.07}].
    The [st.rerun()] after it runs the script again; what that run does to
    the list (a selected template applied again, the row widgets writing their
    values) are actions of their own below. *)
Definition add_portfolio (st : session_state) : session_state :=
  mkSession
    (portfolios st
     ++ [mkPortfolio ("Portfolio " +:+ pretty (length (portfolios st) + 1)%nat) 0 0 0.07])
    (retirement_portfolios st).

(** The body of the "Add Retirement Asset" handler: the append of
    [{"name": f"Asset {len + 1}", "allocation": 0.0, "rate": 0.04}]; the
    rerun after it is covered as for [add_portfolio]. *)
Definition add_retirement_asset (st : session_state) : session_state :=
  mkSession
    (portfolios st)
    (retirement_portfolios st
     ++ [mkRetirementPortfolio
           ("Asset " +:+ pretty (length (retirement_portfolios st) + 1)%nat) 0 0.04]).

(** [l.pop(i)] for an index [i >= 0]: [IndexError] when out of range. *)
Definition py_pop {A} (i : nat) (l : list A) : option (list A) :=
  if (i <? length l)%nat then Some (delete i l) else None.

(** The delete button of row [i]: [if len(..) > 1: ...pop(i)]. *)
Definition delete_portfolio (i : nat) (st : session_state) : option session_state :=
  if (1 <? length (portfolios st))%nat
  then ps ← py_pop i (portfolios st); Some (mkSession ps (retirement_portfolios st))
  else Some st.

Definition delete_retirement_asset (i : nat) (st : session_state) : option session_state :=
  if (1 <? length (retirement_portfolios st))%nat
  then ps ← py_pop i (retirement_portfolios st); Some (mkSession (portfolios st) ps)
  else Some st.

(** The writes the script makes to the two lists of the session.  One run
    of the script is a sequence of them: a button handler, the template calls
    at the top of each tab, and for every row the assignment of what its
    widgets return.  [EditPortfolio i p] and [EditRetirementAsset i p] stand
    for the widgets of row [i] returning the fields of [p], whatever [p] is:
    the values a keyed widget keeps from earlier runs are among them, so the
    sessions of the program are among the sessions reached here. *)
Inductive ui_action :=
  | ApplyTemplate (template_name : string)
  | ApplyRetirementTemplate (template_name : string)
  | AddPortfolio
  | AddRetirementAsset
  | DeletePortfolio (i : nat)
  | DeleteRetirementAsset (i : nat)
  | EditPortfolio (i : nat) (p : Portfolio)
  | EditRetirementAsset (i : nat) (p : RetirementPortfolio).

Definition ui_step (a : ui_action) (st : session_state) : option session_state :=
  match a with
  | ApplyTemplate n => Some (apply_template n st)
  | ApplyRetirementTemplate n => Some (apply_retirement_template n st)
  | AddPortfolio => Some (add_portfolio st)
  | AddRetirementAsset => Some (add_retirement_asset st)
  | DeletePortfolio i => delete_portfolio i st
  | DeleteRetirementAsset i => delete_retirement_asset i st
  | EditPortfolio i p =>
      Some (mkSession (<[i := p]> (portfolios st)) (retirement_portfolios st))
  | EditRetirementAsset i p =>
      Some (mkSession (portfolios st) (<[i := p]> (retirement_portfolios st)))
  end.

(** The sessions a sequence of actions can lead to. *)
Inductive reachable : session_state → Prop :=
  | reachable_initial : reachable initial_session
  | reachable_step st a st' :
      reachable st → ui_step a st = Some st' → reachable st'.

(** ** The analysis tab: [display_portfolio_analysis] *)

(** Digits in reverse order with a comma after every third one. *)
Fixpoint group_thousands (digits : list ascii) : list ascii :=
  match digits with
  | a :: b :: c :: ((_ :: _) as rest) => a :: b :: c :: ","%char :: group_thousands rest
  | _ => digits
  end.

(** [f"{x:,.0f}"]: rounded to an integer, digits grouped by thousands. *)
Definition format_amount (x : Q) : string :=
  let digits := list_ascii_of_string (pretty (round_half_even (Qabs x))) in
  (if Qlt_le_dec x 0 then "-" else "")
    +:+ string_of_list_ascii (rev (group_thousands (rev digits))).

(** [growth_df["Total"].iloc[-1]]: fails on a frame without rows. *)
Definition frame_last_total (growth_df : list (gmap string Q)) : option Q :=
  row ← last growth_df; row !! "Total".

(** One entry of the mask [growth_df["Year"] == year]. *)
Definition row_has_year (year : Z) (row : gmap string Q) : bool :=
  match row !! "Year" with
  | Some v => Qeq_bool v (inject_Z year)
  | None => false
  end.

(** [growth_df[growth_df["Year"] == year].iloc[0]]: the first row whose
    ["Year"] equals [year]; [IndexError] when there is none. *)
Definition frame_year_row (growth_df : list (gmap string Q)) (year : Z)
  : option (gmap string Q) :=
  head (filter (λ row, row_has_year year row = true) growth_df).

(** One row dict of the milestone table. *)
Record MilestoneRow := mkMilestoneRow {
  milestone : string;
  milestone_total_value : string;
  milestone_growth : string
}.

(** One pass of [for year in milestone_years]. *)
Definition milestone_step (symbol : string) (growth_df : list (gmap string Q))
    (total_initial : Q) (years_to_retirement : Z)
    (acc : option (list MilestoneRow)) (year : Z) : option (list MilestoneRow) :=
  milestone_data ← acc;
  if (year <=? years_to_retirement)%Z then
    row_data ← frame_year_row growth_df year;
    total ← row_data !! "Total";
    Some (milestone_data
          ++ [mkMilestoneRow ("Year " +:+ pretty year)
                (symbol +:+ format_amount total)
                (symbol +:+ format_amount (total - total_initial))])
  else Some milestone_data.

(** What the analysis hands to its widgets: the text of the retirement value
    metric, the rows of the milestone table, and the scenario dict from which
    the scenario table and the timeline are drawn ([None] when no withdrawal
    rate is selected and the section is skipped). *)
Record Analysis := mkAnalysis {
  analysis_metric : string;
  analysis_milestones : list MilestoneRow;
  analysis_scenarios : option (gmap string Scenario)
}.

Definition display_portfolio_analysis (st : session_state)
    (years_to_retirement retirement_length : Z) (withdrawal_rates : list Q)
    (symbol : string) : option Analysis :=
  let growth_df := calculate_portfolio_growth (portfolios st) years_to_retirement in
  let total_initial := py_sum (initial <$> portfolios st) in
  final_value ← frame_last_total growth_df;
  milestone_data ←
    foldl (milestone_step symbol growth_df total_initial years_to_retirement)
          (Some []) [5; 10; years_to_retirement]%Z;
  scenarios ←
    match withdrawal_rates with
    | [] => Some None
    | _ => Some <$> calculate_withdrawal_scenarios final_value withdrawal_rates
                      retirement_length (retirement_portfolios st)
    end;
  Some (mkAnalysis (symbol +:+ format_amount final_value) milestone_data scenarios).

(** ** Reference quantities *)

(** The milestone row of year [m]: the total of the recurrence at [m] and
    its excess over the sum of the initial values, as currency text. *)
Definition milestone_of (symbol : string) (ps : list Portfolio) (m : Z) : MilestoneRow :=
  mkMilestoneRow ("Year " +:+ pretty m)
    (symbol +:+ format_amount (projected_total ps (Z.to_nat m)))
    (symbol +:+ format_amount (projected_total ps (Z.to_nat m) - py_sum (initial <$> ps))).

(** * Properties *)

(** ** Python primitives *)

Lemma py_range_length (n : Z) : length (py_range n) = Z.to_nat n.
Proof. unfold py_range. by rewrite length_fmap, length_seq. Qed.

Lemma py_range_lookup (n : Z) (i : nat) :
  (i < Z.to_nat n)%nat → py_range n !! i = Some (Z.of_nat i).
Proof.
  intros Hi. unfold py_range.
  rewrite list_lookup_fmap, lookup_seq_lt by done. done.
Qed.

Lemma py_range_succ (n : Z) :
  (0 ≤ n)%Z → py_range (n + 1) = py_range n ++ [n].
Proof.
  intros Hn. unfold py_range.
  replace (Z.to_nat (n + 1)) with (Z.to_nat n + 1)%nat by lia.
  rewrite seq_app, fmap_app. simpl. f_equal. f_equal. lia.
Qed.

Lemma py_sum_app (xs ys : list Q) : py_sum (xs ++ ys) = foldl Qplus (py_sum xs) ys.
Proof. unfold py_sum. apply foldl_app. Qed.




Lemma py_max0_nonneg (x : Q) : 0 <= py_max0 x.
Proof. unfold py_max0. destruct (Qlt_le_dec 0 x); lra. Qed.

Lemma py_max0_pos (x : Q) : 0 < x → py_max0 x = x.
Proof. intros Hx. unfold py_max0. destruct (Qlt_le_dec 0 x); [done | lra]. Qed.

Lemma py_max0_nonpos (x : Q) : x <= 0 → py_max0 x = 0.
Proof. intros Hx. unfold py_max0. destruct (Qlt_le_dec 0 x); [lra | done]. Qed.

Lemma py_max0_proper (x y : Q) : x == y → py_max0 x == py_max0 y.
Proof.
  intros Hxy. unfold py_max0.
  destruct (Qlt_le_dec 0 x), (Qlt_le_dec 0 y); lra.
Qed.

Lemma withdraw_grow_nonpos (x w b : Q) :
  x <= 0 → 0 <= w → 0 <= b → (x - w) * (1 + b) <= 0.
Proof.
  intros Hx Hw Hb.
  assert (0 <= (w - x) * (1 + b)) by (apply Qmult_le_0_compat; lra).
  assert ((x - w) * (1 + b) == - ((w - x) * (1 + b))) as E by ring.
  rewrite E. lra.
Qed.

Lemma Qlt_bool_true (x y : Q) : Qlt_bool x y = true ↔ x < y.
Proof.
  unfold Qlt_bool. rewrite negb_true_iff.
  destruct (Qle_bool y x) eqn:E.
  - apply Qle_bool_iff in E. split; [done | lra].
  - split; [intros _ | done].
    apply Qnot_le_lt. intros H. apply Qle_bool_iff in H. congruence.
Qed.

Lemma Qlt_bool_false (x y : Q) : Qlt_bool x y = false ↔ y <= x.
Proof.
  destruct (Qlt_bool x y) eqn:E.
  - apply Qlt_bool_true in E. split; [done | lra].
  - split; [intros _ | done].
    apply Qnot_lt_le. intros H. apply Qlt_bool_true in H. congruence.
Qed.

(** ** Accumulation *)

Section Accumulation.

Implicit Types (p : Portfolio) (ps : list Portfolio).

(** The loop of the program pushes the step into the accumulator; the
    recurrence applies it on the way out.  Both run the same steps. *)
Lemma growth_loop_step p (n : nat) (value : Q) :
  growth_loop p (S n) value
  = (growth_loop p n value + annual p) * (1 + rate p).
Proof.
  revert value. induction n as [|n IH]; intros value; [done |].
  change (growth_loop p (S (S n)) value)
    with (growth_loop p (S n) ((value + annual p) * (1 + rate p))).
  by rewrite IH.
Qed.

Lemma growth_loop_projected p (n : nat) :
  growth_loop p n (initial p) = projected_value p n.
Proof.
  induction n as [|n IH]; [done |].
  rewrite growth_loop_step, IH. done.
Qed.

Lemma portfolio_value_projected p (y : nat) :
  portfolio_value p (Z.of_nat y) = projected_value p y.
Proof.
  unfold portfolio_value. destruct (Z.eqb_spec (Z.of_nat y) 0) as [E|E].
  - by replace y with 0%nat by lia.
  - by rewrite Nat2Z.id, growth_loop_projected.
Qed.

(** The running total of the loop over the components. *)
Lemma year_step_total (year : Z) ps (acc : gmap string Q * Q) :
  (foldl (year_step year) acc ps).2
  = foldl Qplus acc.2 ((λ p, portfolio_value p year) <$> ps).
Proof.
  revert acc. induction ps as [|p ps IH]; intros acc; [done |].
  simpl. by rewrite IH.
Qed.

(** A key that is no component's name keeps its entry. *)
Lemma year_step_other (year : Z) ps (acc : gmap string Q * Q) (k : string) :
  k ∉ name <$> ps →
  (foldl (year_step year) acc ps).1 !! k = acc.1 !! k.
Proof.
  revert acc. induction ps as [|p ps IH]; intros acc Hk; [done |].
  rewrite fmap_cons, not_elem_of_cons in Hk. destruct Hk as [Hne Hk].
  simpl. rewrite IH by done. simpl. by rewrite lookup_insert_ne.
Qed.

(** With pairwise distinct names every component finds its own value. *)
Lemma year_step_own (year : Z) ps (acc : gmap string Q * Q) p :
  NoDup (name <$> ps) → p ∈ ps →
  (foldl (year_step year) acc ps).1 !! name p = Some (portfolio_value p year).
Proof.
  revert acc. induction ps as [|q ps IH]; intros acc Hnd Hin.
  - by apply elem_of_nil in Hin.
  - rewrite fmap_cons, NoDup_cons in Hnd. destruct Hnd as [Hq Hnd].
    apply elem_of_cons in Hin as [-> | Hin]; simpl.
    + rewrite year_step_other by done. simpl. by rewrite lookup_insert_eq.
    + by apply IH.
Qed.

Lemma year_row_total ps (year : Z) :
  year_row ps year !! "Total"
  = Some (py_sum ((λ p, portfolio_value p year) <$> ps)).
Proof.
  unfold year_row. rewrite lookup_insert_eq, year_step_total. done.
Qed.

Lemma year_row_year ps (year : Z) :
  "Year" ∉ name <$> ps →
  year_row ps year !! "Year" = Some (inject_Z year).
Proof.
  intros H. unfold year_row.
  rewrite lookup_insert_ne by done.
  rewrite year_step_other by done. simpl. by rewrite lookup_singleton_eq.
Qed.

Lemma year_row_component ps (year : Z) p :
  NoDup (name <$> ps) → "Total" ∉ name <$> ps → p ∈ ps →
  year_row ps year !! name p = Some (portfolio_value p year).
Proof.
  intros Hnd Htot Hin. unfold year_row.
  rewrite lookup_insert_ne.
  - by apply year_step_own.
  - intros E. apply Htot. rewrite E. apply list_elem_of_fmap. eauto.
Qed.

Lemma growth_frame_length ps (years : Z) :
  length (calculate_portfolio_growth ps years) = Z.to_nat (years + 1).
Proof.
  unfold calculate_portfolio_growth. by rewrite length_fmap, py_range_length.
Qed.

Lemma growth_frame_lookup ps (years : Z) (y : nat) :
  (0 ≤ years)%Z → (y ≤ Z.to_nat years)%nat →
  calculate_portfolio_growth ps years !! y = Some (year_row ps (Z.of_nat y)).
Proof.
  intros Hy Hle. unfold calculate_portfolio_growth.
  rewrite list_lookup_fmap, py_range_lookup by lia. done.
Qed.

Lemma projected_total_eq ps (y : nat) :
  py_sum ((λ p, portfolio_value p (Z.of_nat y)) <$> ps) = projected_total ps y.
Proof.
  unfold projected_total. f_equal. apply list_fmap_ext.
  intros _ p _. apply portfolio_value_projected.
Qed.

End Accumulation.

Section AccumulationContract.

Implicit Types (p : Portfolio) (ps : list Portfolio).

Lemma projected_value_nonneg p (y : nat) :
  0 <= rate p → 0 <= annual p → 0 <= initial p → 0 <= projected_value p y.
Proof.
  intros Hr Ha Hi. induction y as [|y IH]; simpl; [done | nra].
Qed.

Lemma projected_value_mono p (y : nat) :
  0 <= rate p → 0 <= annual p → 0 <= initial p →
  projected_value p y <= projected_value p (S y).
Proof.
  intros Hr Ha Hi.
  pose proof (projected_value_nonneg p y Hr Ha Hi) as Hv. simpl. nra.
Qed.

(** C2 (as amended): for pairwise distinct component names, none of them
    ["Year"] or ["Total"], and a horizon [years >= 0], the projection has
    [years + 1] rows in year order, the row of year [y] holds for each
    component the value of the recurrence [initial], then
    [(previous + annual) * (1 + rate)], and the sum of these values as its
    total; a horizon of 0 gives exactly one row, whose total is the sum of
    the initial values. *)
Theorem growth_projection_contract ps (years : Z) :
  (0 ≤ years)%Z →
  NoDup (name <$> ps) → "Year" ∉ name <$> ps → "Total" ∉ name <$> ps →
  projection_contract ps years.
Proof.
  intros Hy Hnd Hyear Htotal. unfold projection_contract.
  split; [|split].
  - rewrite growth_frame_length. lia.
  - intros y Hle.
    exists (year_row ps (Z.of_nat y)), (inject_Z (Z.of_nat y)), (projected_total ps y).
    split; [by apply growth_frame_lookup |].
    split; [by apply year_row_year |].
    split; [reflexivity |].
    split.
    + intros p Hin. exists (projected_value p y). split; [|reflexivity].
      rewrite year_row_component by done.
      by rewrite portfolio_value_projected.
    + split; [|reflexivity].
      by rewrite year_row_total, projected_total_eq.
  - intros ->.
    exists (year_row ps 0), (py_sum (initial <$> ps)).
    split; [done |]. split; [|reflexivity].
    by rewrite year_row_total.
Qed.

Lemma growth_projection_contract_witness :
  projection_contract
    [mkPortfolio "Index Funds" 40000 8000 0.07; mkPortfolio "Bonds" 25000 4000 0.04]
    15.
Proof.
  apply growth_projection_contract.
  - lia.
  - apply (bool_decide_unpack _). vm_compute. reflexivity.
  - apply (bool_decide_unpack _). vm_compute. reflexivity.
  - apply (bool_decide_unpack _). vm_compute. reflexivity.
Defined.

(** Two components that share a name share one key of the row: the second
    value replaces the first, so the first component does not find its
    initial value in the row of year 0.  A component named ["Total"] finds
    the total there instead of its own value. *)
Lemma growth_projection_same_name :
  ¬ projection_contract [mkPortfolio "A" 1 0 0; mkPortfolio "A" 2 0 0] 0
  ∧ ¬ projection_contract [mkPortfolio "Total" 1 0 0; mkPortfolio "B" 2 0 0] 0.
Proof.
  split.
  - intros (_ & H & _).
    destruct (H 0%nat) as (row & _ & _ & Hrow & _ & _ & Hcomp & _); [simpl; lia |].
    injection Hrow as <-.
    destruct (Hcomp (mkPortfolio "A" 1 0 0)) as (v & Hv & Heq); [by left |].
    vm_compute in Hv. injection Hv as <-. vm_compute in Heq. discriminate.
  - intros (_ & H & _).
    destruct (H 0%nat) as (row & _ & _ & Hrow & _ & _ & Hcomp & _); [simpl; lia |].
    injection Hrow as <-.
    destruct (Hcomp (mkPortfolio "Total" 1 0 0)) as (v & Hv & Heq); [by left |].
    vm_compute in Hv. injection Hv as <-. vm_compute in Heq. discriminate.
Qed.



End AccumulationContract.

(** ** Retirement drawdown *)

Section Drawdown.

Variables (starting_value blended annual_w : Q).

Abbreviation drawdown_entry := (drawdown_entry starting_value blended annual_w).

Lemma drawdown_fold (n : nat) :
  foldl (drawdown_step annual_w blended) (starting_value, [])
        (py_range (Z.of_nat n + 1))
  = (running_balance starting_value blended annual_w n,
     drawdown_entry <$> seq 0 (S n)).
Proof.
  induction n as [|n IH]; [done |].
  rewrite py_range_succ by lia.
  replace (Z.of_nat (S n)) with (Z.of_nat n + 1)%Z by lia.
  rewrite foldl_app, IH. simpl foldl. unfold drawdown_step at 1.
  destruct (Z.eqb_spec (Z.of_nat n + 1) 0) as [E|_]; [lia |].
  cbn [fst snd]. f_equal.
  rewrite (seq_S (S n)), fmap_app. done.
Qed.

Lemma drawdown_entries (years : Z) :
  drawdown starting_value blended annual_w years
  = drawdown_entry <$> seq 0 (Z.to_nat (years + 1)).
Proof.
  unfold drawdown. destruct (Z.le_gt_cases 0 years) as [Hy|Hy].
  - assert (years = Z.of_nat (Z.to_nat years)) as -> by lia.
    generalize (Z.to_nat years). intros n.
    rewrite drawdown_fold.
    by replace (Z.to_nat (Z.of_nat n + 1)) with (S n) by lia.
  - unfold py_range. by replace (Z.to_nat (years + 1)) with 0%nat by lia.
Qed.

Lemma drawdown_length (years : Z) :
  length (drawdown starting_value blended annual_w years) = Z.to_nat (years + 1).
Proof. by rewrite drawdown_entries, length_fmap, length_seq. Qed.

Lemma drawdown_lookup (years : Z) (y : nat) :
  (Z.of_nat y ≤ years)%Z →
  drawdown starting_value blended annual_w years !! y = Some (drawdown_entry y).
Proof.
  intros Hy. rewrite drawdown_entries, list_lookup_fmap, lookup_seq_lt by lia.
  done.
Qed.

Lemma drawdown_lookup_inv (years : Z) (y : nat) (e : Q) :
  drawdown starting_value blended annual_w years !! y = Some e →
  e = drawdown_entry y.
Proof.
  rewrite drawdown_entries, list_lookup_fmap.
  intros H. apply fmap_Some in H as (k & Hk & ->).
  apply lookup_seq in Hk as [-> _]. done.
Qed.

Lemma drawdown_last (years : Z) :
  (0 ≤ years)%Z →
  last (drawdown starting_value blended annual_w years)
  = Some (drawdown_entry (Z.to_nat years)).
Proof.
  intros Hy. rewrite drawdown_entries.
  replace (Z.to_nat (years + 1)) with (S (Z.to_nat years)) by lia.
  rewrite seq_S, fmap_app. simpl. apply last_snoc.
Qed.

(** From here on: a non-negative rate and a non-negative withdrawal. *)
Hypothesis blended_nonneg : 0 <= blended.
Hypothesis annual_w_nonneg : 0 <= annual_w.

(** Each entry follows from the entry before it by the clamped step: when
    the running balance is positive the entry is that balance; when it is
    not, the entry is 0 and both the balance and the clamped step stay at or
    below 0. *)
Lemma drawdown_entry_step (y : nat) :
  drawdown_entry (S y)
  == py_max0 ((drawdown_entry y - annual_w) * (1 + blended)).
Proof.
  destruct y as [|y]; [reflexivity |].
  unfold drawdown_entry.
  set (c := running_balance starting_value blended annual_w (S y)).
  change (running_balance starting_value blended annual_w (S (S y)))
    with ((c - annual_w) * (1 + blended)).
  destruct (Qlt_le_dec 0 c) as [Hc|Hc].
  - rewrite (py_max0_pos c) by done. reflexivity.
  - rewrite (py_max0_nonpos c) by done.
    rewrite !py_max0_nonpos; [reflexivity | |];
      apply withdraw_grow_nonpos; done || lra.
Qed.

(** The entries are the clamped recurrence. *)
Lemma drawdown_entry_clamped (y : nat) :
  drawdown_entry y == clamped_balance starting_value blended annual_w y.
Proof.
  induction y as [|y IH]; [reflexivity |].
  rewrite drawdown_entry_step. simpl clamped_balance.
  apply py_max0_proper. rewrite IH. reflexivity.
Qed.

Lemma drawdown_entry_zero_next (y : nat) :
  drawdown_entry y == 0 → drawdown_entry (S y) == 0.
Proof.
  intros Hz. rewrite drawdown_entry_step.
  rewrite py_max0_nonpos; [reflexivity |].
  apply withdraw_grow_nonpos; done || lra.
Qed.

Lemma drawdown_entry_zero_later (i j : nat) :
  (i ≤ j)%nat → drawdown_entry i == 0 → drawdown_entry j == 0.
Proof.
  intros Hij Hz. induction Hij as [|j _ IH]; [done |].
  by apply drawdown_entry_zero_next.
Qed.

End Drawdown.

(** C1 (as amended): for a starting value, a blended rate and a withdrawal
    rate that are all non-negative and [years >= 0], the trajectory has
    [years + 1] entries, entry 0 is the starting value, every later entry is
    the entry before it minus the annual withdrawal, times
    [1 + blended_rate], clamped at 0, after a zero entry every entry is
    zero, and the trajectory is the clamped recurrence that carries the
    clamped value forward. *)
Theorem drawdown_clamped_recurrence (starting_value blended withdrawal_rate : Q)
    (years : Z) :
  0 <= starting_value → 0 <= blended → 0 <= withdrawal_rate → (0 ≤ years)%Z →
  drawdown_contract starting_value blended withdrawal_rate years.
Proof.
  intros Hsv Hb Hwr Hy. unfold drawdown_contract. cbv zeta.
  assert (0 <= starting_value * withdrawal_rate) as Hw
    by (by apply Qmult_le_0_compat).
  split; [apply drawdown_length |].
  split; [by rewrite drawdown_lookup by lia |].
  split; [|split].
  - intros y Hy1 Hyle. destruct y as [|y]; [lia |].
    eexists _, _. rewrite !drawdown_lookup by lia.
    split; [done |]. split; [done |].
    replace (S y - 1)%nat with y by lia.
    by apply drawdown_entry_step.
  - intros i j zero later Hij Hi Hz Hj.
    apply drawdown_lookup_inv in Hi, Hj. subst zero later.
    by eapply drawdown_entry_zero_later.
  - intros y Hyle. eexists. rewrite drawdown_lookup by lia.
    split; [done |]. by apply drawdown_entry_clamped.
Qed.

Lemma drawdown_clamped_recurrence_witness :
  drawdown_contract 64200 0.048 0.04 30.
Proof.
  apply drawdown_clamped_recurrence; [lra | lra | lra | lia].
Defined.

(** With a negative starting value the annual withdrawal is negative as
    well: the trajectory is [-100, 0, 0, 50], so a zero entry is followed by
    a positive one, and the entry after a clamped 0 is not the clamped step
    of that 0. *)
Lemma drawdown_negative_start :
  ¬ drawdown_contract (-100) 0 (1 # 2) 3.
Proof.
  intros (_ & _ & _ & H & _).
  assert (∃ later, drawdown (-100) 0 (-100 * (1 # 2)) 3 !! 3%nat = Some later
                   ∧ ¬ later == 0) as (later & Hl & Hnz).
  { eexists. split; [vm_compute; reflexivity |]. vm_compute. discriminate. }
  apply Hnz. apply (H 1%nat 3%nat 0 later); [lia | | reflexivity | exact Hl].
  vm_compute. reflexivity.
Qed.

(** ** Scenario table *)

Lemma round_half_even_near (x : Q) :
  Qabs (inject_Z (round_half_even x) - x) <= 1 # 2.
Proof.
  unfold round_half_even.
  pose proof (Qfloor_le x) as Hlo. pose proof (Qlt_floor x) as Hhi.
  rewrite inject_Z_plus in Hhi. change (inject_Z 1) with 1 in Hhi.
  assert (∀ z : Z, inject_Z (z + 1) == inject_Z z + 1) as Hplus
    by (intros z; rewrite inject_Z_plus; reflexivity).
  destruct (Qcompare (x - inject_Z (Qfloor x)) (1 # 2)) eqn:E.
  - apply Qeq_alt in E.
    destruct (Z.even (Qfloor x)); [|rewrite Hplus];
      apply Qabs_Qle_condition; split; lra.
  - apply Qlt_alt in E. apply Qabs_Qle_condition; split; lra.
  - apply Qgt_alt in E. rewrite Hplus. apply Qabs_Qle_condition; split; lra.
Qed.

Section Scenarios.

Variables (value : Q) (years : Z) (assets : list RetirementPortfolio).

Abbreviation blended := (blended_growth_rate assets).
Abbreviation step := (scenarios_step value blended years).

Lemma scenario_of_Some (rate : Q) (s : Scenario) :
  scenario_of value blended years rate = Some s →
  annual_withdrawal s = value * rate
  ∧ monthly_withdrawal s = value * rate / 12
  ∧ portfolio_values s = drawdown value blended (value * rate) years
  ∧ last (portfolio_values s) = Some (final_value s)
  ∧ blended_rate s = blended.
Proof.
  unfold scenario_of.
  destruct (last (drawdown value blended (value * rate) years)) as [final|] eqn:E;
    simpl; [|done].
  intros [= <-]. simpl. done.
Qed.

(** With a horizon of at least 0 the trajectory is not empty and the
    scenario is built. *)
Lemma scenario_of_total (rate : Q) :
  (0 ≤ years)%Z → is_Some (scenario_of value blended years rate).
Proof.
  intros Hy. unfold scenario_of. rewrite drawdown_last by done. simpl. eauto.
Qed.

Lemma scenarios_fold_None (rates : list Q) : foldl step None rates = None.
Proof. induction rates as [|r rates IH]; [done | exact IH]. Qed.

Lemma scenarios_fold_cons (rates : list Q) (rate : Q) (acc res : gmap string Scenario) :
  foldl step (Some acc) (rate :: rates) = Some res →
  ∃ s, scenario_of value blended years rate = Some s
       ∧ foldl step (Some (<[percent_label rate := s]> acc)) rates = Some res.
Proof.
  simpl. destruct (scenario_of value blended years rate) as [s|] eqn:E; simpl.
  - eauto.
  - by rewrite scenarios_fold_None.
Qed.

Lemma scenarios_fold_total (rates : list Q) (acc : gmap string Scenario) :
  (0 ≤ years)%Z → is_Some (foldl step (Some acc) rates).
Proof.
  intros Hy. revert acc. induction rates as [|r rates IH]; intros acc; [by eexists |].
  destruct (scenario_of_total r Hy) as [s Hs].
  simpl. rewrite Hs. simpl. apply IH.
Qed.

(** Every entry of the result was either there before the loop or is the
    scenario of one of the rates, under that rate's label. *)
Lemma scenarios_fold_lookup (rates : list Q) (acc res : gmap string Scenario)
    (label : string) (s : Scenario) :
  foldl step (Some acc) rates = Some res →
  res !! label = Some s →
  acc !! label = Some s
  ∨ ∃ rate, rate ∈ rates ∧ label = percent_label rate
            ∧ scenario_of value blended years rate = Some s.
Proof.
  revert acc. induction rates as [|r rates IH]; intros acc Hfold Hres.
  - injection Hfold as ->. by left.
  - apply scenarios_fold_cons in Hfold as (s' & Hs' & Hfold).
    destruct (IH _ Hfold Hres) as [Hacc | (rate & Hin & Hl & Hs)].
    + destruct (decide (percent_label r = label)) as [<-|Hne].
      * rewrite lookup_insert_eq in Hacc. injection Hacc as ->.
        right. exists r. split; [by left | done].
      * rewrite lookup_insert_ne in Hacc by done. by left.
    + right. exists rate. split; [by right | done].
Qed.

(** Rates with another label leave the entry of a label as it is. *)
Lemma scenarios_fold_other (rates : list Q) (acc res : gmap string Scenario)
    (label : string) :
  foldl step (Some acc) rates = Some res →
  (∀ r, r ∈ rates → percent_label r ≠ label) →
  res !! label = acc !! label.
Proof.
  revert acc. induction rates as [|r rates IH]; intros acc Hfold Hother.
  - by injection Hfold as ->.
  - apply scenarios_fold_cons in Hfold as (s' & Hs' & Hfold).
    rewrite (IH _ Hfold) by (intros r' Hr'; apply Hother; by right).
    apply lookup_insert_ne, Hother. by left.
Qed.

(** The keys of the result: those present before, and the labels of the
    rates. *)
Lemma scenarios_fold_dom (rates : list Q) (acc res : gmap string Scenario) :
  foldl step (Some acc) rates = Some res →
  dom res = dom acc ∪ list_to_set (percent_label <$> rates).
Proof.
  revert acc. induction rates as [|r rates IH]; intros acc Hfold.
  - injection Hfold as ->. simpl. by rewrite (right_id_L ∅ (∪)).
  - apply scenarios_fold_cons in Hfold as (s' & Hs' & Hfold).
    rewrite (IH _ Hfold), dom_insert_L, fmap_cons, list_to_set_cons.
    rewrite (comm_L (∪) {[percent_label r]} (dom acc)).
    by rewrite (assoc_L (∪)).
Qed.

Lemma scenarios_fold_split (before after : list Q) (acc res : gmap string Scenario) :
  foldl step (Some acc) (before ++ after) = Some res →
  ∃ mid, foldl step (Some acc) before = Some mid
         ∧ foldl step (Some mid) after = Some res.
Proof.
  rewrite foldl_app. intros Hfold.
  destruct (foldl step (Some acc) before) as [mid|] eqn:E.
  - eauto.
  - by rewrite scenarios_fold_None in Hfold.
Qed.

End Scenarios.

(** C4: every scenario of the result belongs to one of the requested rates;
    its annual withdrawal is [value * rate], the trajectory starts at [value]
    and every later entry is the clamped running balance from which that same
    annual withdrawal has been taken each year, the monthly withdrawal is the
    annual one over 12, the final value is the last entry of the trajectory,
    and the blended rate is the sum of [allocation * rate] over the assets, the
    same in every scenario of the result. *)
Theorem scenario_fields (value : Q) (rates : list Q) (years : Z)
    (assets : list RetirementPortfolio) (res : gmap string Scenario)
    (label : string) (s : Scenario) :
  calculate_withdrawal_scenarios value rates years assets = Some res →
  res !! label = Some s →
  (∃ rate, rate ∈ rates ∧ label = percent_label rate
           ∧ annual_withdrawal s = value * rate)
  ∧ portfolio_values s !! 0%nat = Some value
  ∧ (∀ y : nat, (Z.of_nat (S y) ≤ years)%Z →
       portfolio_values s !! S y
       = Some (py_max0 ((running_balance value (blended_rate s) (annual_withdrawal s) y
                         - annual_withdrawal s) * (1 + blended_rate s))))
  ∧ monthly_withdrawal s = annual_withdrawal s / 12
  ∧ last (portfolio_values s) = Some (final_value s)
  ∧ blended_rate s = py_sum ((λ p, allocation p * ret_rate p) <$> assets)
  ∧ (∀ label' s', res !! label' = Some s' → blended_rate s' = blended_rate s).
Proof.
  unfold calculate_withdrawal_scenarios. intros Hres Hs.
  assert (∀ l' s', res !! l' = Some s' →
            ∃ rate, rate ∈ rates ∧ l' = percent_label rate
              ∧ scenario_of value (blended_growth_rate assets) years rate = Some s')
    as Hall.
  { intros l' s' Hs'.
    destruct (scenarios_fold_lookup _ _ _ _ _ _ _ _ Hres Hs') as [Hempty|H]; [|done].
    by rewrite lookup_empty in Hempty. }
  destruct (Hall _ _ Hs) as (rate & Hin & Hl & Hsc).
  apply scenario_of_Some in Hsc as (Ha & Hm & Hp & Hlast & Hb).
  assert (0 ≤ years)%Z as Hy.
  { destruct (Z.le_gt_cases 0 years) as [|Hneg]; [done |].
    rewrite Hp, drawdown_entries in Hlast.
    by replace (Z.to_nat (years + 1)) with 0%nat in Hlast by lia. }
  split; [by exists rate |].
  split; [by rewrite Hp, drawdown_lookup by lia |].
  split; [intros y Hyle; by rewrite Hp, drawdown_lookup, Ha, Hb by lia |].
  split; [by rewrite Hm, Ha |].
  split; [done |].
  split; [done |].
  intros l' s' Hs'.
  destruct (Hall _ _ Hs') as (rate' & _ & _ & Hsc').
  apply scenario_of_Some in Hsc' as (_ & _ & _ & _ & Hb'). by rewrite Hb, Hb'.
Qed.

Lemma scenario_fields_witness :
  ∃ res s,
    calculate_withdrawal_scenarios 64200 [0.03; 0.04] 2
      [mkRetirementPortfolio "Conservative Bonds" 0.6 0.03;
       mkRetirementPortfolio "Dividend Stocks" 0.4 0.06] = Some res
    ∧ res !! "4.0%" = Some s
    ∧ annual_withdrawal s = 64200 * 0.04
    ∧ monthly_withdrawal s = annual_withdrawal s / 12
    ∧ last (portfolio_values s) = Some (final_value s).
Proof.
  destruct (calculate_withdrawal_scenarios 64200 [0.03; 0.04] 2
              [mkRetirementPortfolio "Conservative Bonds" 0.6 0.03;
               mkRetirementPortfolio "Dividend Stocks" 0.4 0.06])
    as [res|] eqn:Eres; [|vm_compute in Eres; discriminate].
  destruct (res !! "4.0%") as [s|] eqn:Es.
  - exists res, s.
    destruct (scenario_fields _ _ _ _ _ _ _ Eres Es)
      as (_ & _ & _ & Hm & Hlast & _).
    split; [done |]. split; [done |]. split; [|done].
    vm_compute in Eres. injection Eres as <-.
    vm_compute in Es. injection Es as <-. reflexivity.
  - vm_compute in Eres. injection Eres as <-. vm_compute in Es. discriminate.
Defined.

(** C6: an empty list of rates gives the empty mapping; in the result of any
    list of rates the entry of a label is the scenario of the last rate with
    that label, and two rates with one label leave exactly one entry, that of
    the later rate. *)
Theorem scenarios_empty_and_overwrite (value : Q) (years : Z)
    (assets : list RetirementPortfolio) :
  calculate_withdrawal_scenarios value [] years assets = Some ∅
  ∧ (∀ before after later res,
       calculate_withdrawal_scenarios value (before ++ later :: after) years assets
       = Some res →
       (∀ r, r ∈ after → percent_label r ≠ percent_label later) →
       res !! percent_label later
       = scenario_of value (blended_growth_rate assets) years later)
  ∧ (∀ earlier later,
       (0 ≤ years)%Z → percent_label earlier = percent_label later →
       ∃ s, scenario_of value (blended_growth_rate assets) years later = Some s
            ∧ calculate_withdrawal_scenarios value [earlier; later] years assets
              = Some {[percent_label later := s]}
            ∧ size ({[percent_label later := s]} : gmap string Scenario) = 1%nat).
Proof.
  unfold calculate_withdrawal_scenarios. split; [done |]. split.
  - intros before after later res Hres Hafter.
    apply scenarios_fold_split in Hres as (mid & _ & Hres).
    apply scenarios_fold_cons in Hres as (s & Hs & Hres).
    rewrite (scenarios_fold_other _ _ _ _ _ _ _ Hres Hafter).
    by rewrite lookup_insert_eq.
  - intros earlier later Hy Hlabel.
    destruct (scenario_of_total value years assets earlier Hy) as [s1 Hs1].
    destruct (scenario_of_total value years assets later Hy) as [s2 Hs2].
    exists s2. split; [done |]. split; [|apply map_size_singleton].
    simpl. rewrite Hs1. simpl. rewrite Hs2. simpl.
    by rewrite Hlabel, insert_insert_eq, insert_empty.
Qed.

Lemma scenarios_empty_and_overwrite_witness :
  ∃ s, scenario_of 1000 (blended_growth_rate [mkRetirementPortfolio "Bonds" 1 0.035])
         20 0.05 = Some s
       ∧ calculate_withdrawal_scenarios 1000 [0.05; 0.05] 20
           [mkRetirementPortfolio "Bonds" 1 0.035]
         = Some {[percent_label 0.05 := s]}
       ∧ size ({[percent_label 0.05 := s]} : gmap string Scenario) = 1%nat.
Proof.
  destruct (scenarios_empty_and_overwrite 1000 20
              [mkRetirementPortfolio "Bonds" 1 0.035]) as (_ & _ & H).
  apply (H 0.05 0.05); [lia | reflexivity].
Defined.

(** The label follows the binary64 product: [0.0445 * 100] is the double
    just above 4.45 and [0.0345 * 100] the double just above 3.45, so both
    labels round up. *)
Lemma percent_label_of_product :
  percent_label (round64 0.0445) = "4.5%" ∧ percent_label (round64 0.0345) = "3.5%".
Proof. split; vm_compute; reflexivity. Qed.

(** C10: the key of a scenario is the float [rate * 100] written with one
    decimal (the tenth of a percent nearest to that product) and a percent
    sign; the keys of the result are exactly the labels of the requested
    rates; the entry of a label is the scenario of the last rate with that
    label, so two rates with one label leave the single entry of the later
    one; the floats 0.04 and 0.0401 are different rates with the one label
    ["4.0%"], and requesting them in this order leaves the single entry of
    0.0401. *)
Theorem scenario_labels_collapse (value : Q) (years : Z)
    (assets : list RetirementPortfolio) :
  (0 ≤ years)%Z →
  (∀ rate, ∃ tenths : Z,
     percent_label rate
     = (if Qlt_le_dec rate 0 then "-" else "")
         +:+ pretty (tenths / 10)%Z +:+ "." +:+ pretty (tenths mod 10)%Z +:+ "%"
     ∧ Qabs (inject_Z tenths - Qabs (fl_mul rate 100) * 10) <= 1 # 2)
  ∧ (∀ rates, ∃ res,
       calculate_withdrawal_scenarios value rates years assets = Some res
       ∧ dom res = list_to_set (percent_label <$> rates))
  ∧ (∀ before later after res,
       calculate_withdrawal_scenarios value (before ++ later :: after) years assets
       = Some res →
       (∀ r, r ∈ after → percent_label r ≠ percent_label later) →
       res !! percent_label later
       = scenario_of value (blended_growth_rate assets) years later)
  ∧ (∀ earlier later,
       percent_label earlier = percent_label later →
       ∃ s, scenario_of value (blended_growth_rate assets) years later = Some s
            ∧ calculate_withdrawal_scenarios value [earlier; later] years assets
              = Some {[percent_label later := s]})
  ∧ ¬ round64 0.04 == round64 0.0401
  ∧ percent_label (round64 0.04) = "4.0%"
  ∧ percent_label (round64 0.0401) = "4.0%"
  ∧ ∃ s, scenario_of value (blended_growth_rate assets) years (round64 0.0401) = Some s
         ∧ calculate_withdrawal_scenarios value [round64 0.04; round64 0.0401]
             years assets
           = Some {["4.0%" := s]}.
Proof.
  intros Hy.
  assert (∀ earlier later,
       percent_label earlier = percent_label later →
       ∃ s, scenario_of value (blended_growth_rate assets) years later = Some s
            ∧ calculate_withdrawal_scenarios value [earlier; later] years assets
              = Some {[percent_label later := s]}) as Hpair.
  { intros earlier later Hlabel.
    destruct (scenario_of_total value years assets earlier Hy) as [s1 Hs1].
    destruct (scenario_of_total value years assets later Hy) as [s2 Hs2].
    exists s2. split; [done |].
    unfold calculate_withdrawal_scenarios. simpl. rewrite Hs1. simpl.
    rewrite Hs2. simpl. by rewrite Hlabel, insert_insert_eq, insert_empty. }
  assert (percent_label (round64 0.04) = "4.0%") as H04 by (vm_compute; reflexivity).
  assert (percent_label (round64 0.0401) = "4.0%") as H0401 by (vm_compute; reflexivity).
  split; [|split; [|split; [|split; [|split; [|split; [|split]]]]]].
  - intros rate. exists (round_half_even (Qabs (fl_mul rate 100) * 10)).
    split; [done | apply round_half_even_near].
  - intros rates. unfold calculate_withdrawal_scenarios.
    destruct (scenarios_fold_total value years assets rates ∅ Hy) as [res Hres].
    exists res. split; [done |].
    rewrite (scenarios_fold_dom _ _ _ _ _ _ Hres), dom_empty_L.
    by rewrite (left_id_L ∅ (∪)).
  - unfold calculate_withdrawal_scenarios. intros before later after res Hres Hafter.
    apply scenarios_fold_split in Hres as (mid & _ & Hres).
    apply scenarios_fold_cons in Hres as (s & Hs & Hres).
    rewrite (scenarios_fold_other _ _ _ _ _ _ _ Hres Hafter).
    by rewrite lookup_insert_eq.
  - exact Hpair.
  - vm_compute. discriminate.
  - exact H04.
  - exact H0401.
  - destruct (Hpair (round64 0.04) (round64 0.0401)) as (s & Hs & Hres);
      [by rewrite H04, H0401 |].
    exists s. split; [done |]. by rewrite Hres, H0401.
Qed.

Lemma scenario_labels_collapse_witness :
  ∃ s, scenario_of 64200
         (blended_growth_rate [mkRetirementPortfolio "Conservative Bonds" 0.6 0.03;
                               mkRetirementPortfolio "Dividend Stocks" 0.4 0.06])
         30 (round64 0.0401) = Some s
       ∧ calculate_withdrawal_scenarios 64200 [round64 0.04; round64 0.0401] 30
           [mkRetirementPortfolio "Conservative Bonds" 0.6 0.03;
            mkRetirementPortfolio "Dividend Stocks" 0.4 0.06]
         = Some {["4.0%" := s]}.
Proof.
  destruct (scenario_labels_collapse 64200 30
              [mkRetirementPortfolio "Conservative Bonds" 0.6 0.03;
               mkRetirementPortfolio "Dividend Stocks" 0.4 0.06])
    as (_ & _ & _ & _ & _ & _ & _ & H); [lia | exact H].
Defined.

(** ** Validators *)

Section Strip.

Lemma py_lstrip_nil (l : list ascii) :
  py_lstrip l = [] ↔ Forall (λ c, py_isspace c = true) l.
Proof.
  induction l as [|c l IH]; simpl.
  - split; [constructor | done].
  - destruct (py_isspace c) eqn:E.
    + rewrite IH. split; [by constructor | by inversion 1].
    + split; [done |]. inversion 1. congruence.
Qed.

Lemma py_lstrip_head (l rest : list ascii) (c : ascii) :
  py_lstrip l = c :: rest → py_isspace c = false.
Proof.
  induction l as [|d l IH]; simpl; [done |].
  destruct (py_isspace d) eqn:E; [done |]. by intros [= <- _].
Qed.

Lemma py_lstrip_fixed (l : list ascii) :
  Forall (λ c, py_isspace c = true) (py_lstrip l) → py_lstrip l = [].
Proof.
  destruct (py_lstrip l) as [|c rest] eqn:E; [done |].
  apply py_lstrip_head in E. inversion 1. congruence.
Qed.

(** The stripped name is empty exactly when every character is
    whitespace. *)
Lemma py_strip_truthy (s : string) :
  py_truthy (py_strip s) = true ↔ non_blank s.
Proof.
  unfold py_strip, non_blank.
  set (l := list_ascii_of_string s).
  assert (py_lstrip (rev (py_lstrip l)) = []
          ↔ Forall (λ c, py_isspace c = true) l) as Hnil.
  { rewrite py_lstrip_nil. split.
    - intros H. apply Forall_rev in H. rewrite rev_involutive in H.
      apply py_lstrip_fixed in H. by apply py_lstrip_nil.
    - intros H. apply py_lstrip_nil in H. rewrite H. constructor. }
  destruct (py_lstrip (rev (py_lstrip l))) as [|c rest] eqn:E.
  - split; [done |]. intros (c & Hc & Hsp).
    destruct Hnil as [Hall _]. specialize (Hall eq_refl).
    rewrite Forall_forall in Hall. specialize (Hall c Hc). congruence.
  - split.
    + intros _.
      destruct (decide (Forall (λ c, py_isspace c = true) l)) as [Hall|Hnot].
      * by apply Hnil in Hall.
      * apply not_Forall_Exists in Hnot; [|apply _].
        apply Exists_exists in Hnot as (d & Hd & Hsp).
        exists d. split; [done |]. by apply not_true_is_false.
    + intros _. destruct (rev (c :: rest)) as [|d r] eqn:Er; [|done].
      apply (f_equal (@length ascii)) in Er. rewrite length_rev in Er. done.
Qed.

Lemma py_strip_falsy (s : string) :
  negb (py_truthy (py_strip s)) = false ↔ non_blank s.
Proof. rewrite negb_false_iff. apply py_strip_truthy. Qed.

End Strip.

Lemma validate_portfolios_loop_iff (ps : list Portfolio) :
  validate_portfolios_loop ps = true ↔ Forall component_ok ps.
Proof.
  induction ps as [|p ps IH]; simpl; [by split; [constructor|] |].
  rewrite Forall_cons, <- IH. unfold component_ok.
  destruct (negb (py_truthy (py_strip (name p)))) eqn:En.
  { split; [done |]. intros ((Hn & _) & _).
    apply py_strip_falsy in Hn. congruence. }
  apply py_strip_falsy in En.
  destruct (Qlt_bool (initial p) 0) eqn:Ei; simpl.
  { apply Qlt_bool_true in Ei. split; [done |]. intros ((_ & H & _) & _). lra. }
  destruct (Qlt_bool (annual p) 0) eqn:Ea; simpl.
  { apply Qlt_bool_true in Ea. split; [done |]. intros ((_ & _ & H & _) & _). lra. }
  destruct (Qlt_bool (rate p) 0) eqn:Er; simpl.
  { apply Qlt_bool_true in Er. split; [done |]. intros ((_ & _ & _ & H & _) & _). lra. }
  apply Qlt_bool_false in Ei, Ea, Er.
  destruct (Qeq_bool (initial p) 0 && Qeq_bool (annual p) 0) eqn:Ez.
  { apply andb_true_iff in Ez as [Hi Ha]. apply Qeq_bool_iff in Hi, Ha.
    split; [done |]. intros ((_ & _ & _ & _ & H) & _). by destruct H. }
  split; [intros H; split; [|done] | by intros [_ H]].
  repeat (split; [done |]).
  intros [Hi Ha]. apply Qeq_bool_iff in Hi, Ha. by rewrite Hi, Ha in Ez.
Qed.

(** X21: [validate_portfolios] accepts exactly the lists in which every
    component is well formed (non-blank name, non-negative initial value,
    contribution and rate, not both initial value and contribution zero); no
    component is asked for, so the empty list is accepted. *)
Lemma validate_portfolios_iff (st : session_state) :
  validate_portfolios st = true ↔ Forall component_ok (portfolios st).
Proof. apply validate_portfolios_loop_iff. Qed.

(** C3 (as amended): [validate_portfolios] makes no test for emptiness.
    On a non-empty list it returns [True] exactly when every component has a
    non-blank name, non-negative initial value, contribution and rate, and
    not both initial value and contribution zero, which for such a list is
    the condition with "and the set is non-empty"; on the empty list, which
    the program never holds, its loop has nothing to reject and it returns
    [True]. *)
Theorem validate_accumulation_condition (st : session_state) :
  (portfolios st ≠ [] →
   (validate_portfolios st = true
    ↔ Forall component_ok (portfolios st) ∧ portfolios st ≠ []))
  ∧ (portfolios st = [] → validate_portfolios st = true).
Proof.
  split.
  - intros Hne. unfold validate_portfolios. rewrite validate_portfolios_loop_iff.
    split; [by intros H | by intros [H _]].
  - intros Hnil. unfold validate_portfolios. by rewrite Hnil.
Qed.

Lemma validate_accumulation_condition_witness :
  validate_portfolios (mkSession [mkPortfolio "Primary Portfolio" 50000 10000 0.07] [])
  = true.
Proof.
  destruct (validate_accumulation_condition
              (mkSession [mkPortfolio "Primary Portfolio" 50000 10000 0.07] []))
    as [H _].
  apply H; [done |]. split; [|done].
  repeat constructor; cbn [name initial annual rate].
  - exists "P"%char. split; [by left | reflexivity].
  - lra.
  - lra.
  - lra.
  - intros [H0 _]. vm_compute in H0. discriminate.
Defined.

(** The session without any accumulation component is accepted, although
    its component set is empty. *)
Lemma validate_portfolios_empty_accepted :
  ¬ (validate_portfolios (mkSession [] []) = true
     ↔ Forall component_ok (portfolios (mkSession [] []))
       ∧ portfolios (mkSession [] []) ≠ []).
Proof. intros [H _]. by destruct (H eq_refl) as [_ Hne]. Qed.


(** *** binary64 rounding respects the value of its argument *)







(** ** Weighted growth rate *)

(** C8: the weighted rate never divides by zero: it always has a value, and
    when the total of the initial values is 0 that value is 0. *)
Theorem weighted_rate_guard (st : session_state) :
  py_sum (initial <$> portfolios st) == 0 →
  weighted_rate st = Some 0
  ∧ ∀ st' : session_state, is_Some (weighted_rate st').
Proof.
  intros Hzero. split.
  - unfold weighted_rate. destruct (Qlt_le_dec _ _) as [Hpos|_]; [lra | done].
  - intros st'. unfold weighted_rate, py_div.
    destruct (Qlt_le_dec _ _) as [Hpos|_]; [|by eexists].
    destruct (Qeq_bool _ 0) eqn:E; [|by eexists].
    apply Qeq_bool_iff in E. lra.
Qed.

Lemma weighted_rate_guard_witness :
  weighted_rate (mkSession [mkPortfolio "Portfolio 1" 0 500 0.07] []) = Some 0
  ∧ ∀ st' : session_state, is_Some (weighted_rate st').
Proof.
  apply weighted_rate_guard. vm_compute. reflexivity.
Defined.

(** ** Configuration export *)

Lemma portfolio_json_read (p : Portfolio) :
  portfolio_of_json (portfolio_json p) = Some p.
Proof. by destruct p. Qed.

Lemma portfolios_of_config_export (st : session_state) (now : string) :
  portfolios_of_config (save_portfolio_config st now) = Some (portfolios st).
Proof.
  unfold portfolios_of_config, save_portfolio_config. simpl.
  apply mapM_fmap_Some. exact portfolio_json_read.
Qed.

(** C9: the exported document is an object with the keys ["portfolios"] and
    ["timestamp"]; the former is an array with one object of the keys
    ["name"], ["initial"], ["annual"], ["rate"] per component, in order; and
    the components read back from that array project to the same frame as
    the components exported. *)
Theorem export_round_trip (st : session_state) (now : string) (years : Z) :
  (∃ items,
     save_portfolio_config st now
     = JObject [("portfolios", JArray items); ("timestamp", JString now)]
     ∧ Forall2 (λ p item,
         item = JObject [("name", JString (name p)); ("initial", JNumber (initial p));
                         ("annual", JNumber (annual p)); ("rate", JNumber (rate p))])
         (portfolios st) items)
  ∧ ∃ ps, portfolios_of_config (save_portfolio_config st now) = Some ps
          ∧ calculate_portfolio_growth ps years
            = calculate_portfolio_growth (portfolios st) years.
Proof.
  split.
  - exists (portfolio_json <$> portfolios st). split; [done |].
    apply Forall2_fmap_r, Forall_Forall2_diag, Forall_forall. done.
  - exists (portfolios st). split; [apply portfolios_of_config_export | done].
Qed.

(** * Further properties *)

(** ** Accumulation: horizon and names *)

Lemma py_range_take (n m : Z) :
  (n ≤ m)%Z → py_range n = take (Z.to_nat n) (py_range m).
Proof.
  intros Hnm. unfold py_range.
  rewrite <- fmap_take, take_seq. f_equal. f_equal. lia.
Qed.

(** X1: a longer horizon only appends rows: the frame for [years] is the
    frame for any [years' >= years] cut after row [years]. *)
Theorem growth_frame_prefix (ps : list Portfolio) (years years' : Z) :
  (years ≤ years')%Z →
  calculate_portfolio_growth ps years
  = take (Z.to_nat (years + 1)) (calculate_portfolio_growth ps years').
Proof.
  intros Hle. unfold calculate_portfolio_growth.
  rewrite <- fmap_take. f_equal. apply py_range_take. lia.
Qed.

Lemma growth_frame_prefix_witness :
  calculate_portfolio_growth [mkPortfolio "Index Funds" 40000 8000 0.07] 10
  = take (Z.to_nat (10 + 1))
      (calculate_portfolio_growth [mkPortfolio "Index Funds" 40000 8000 0.07] 30).
Proof. apply growth_frame_prefix. lia. Defined.

(** The last component with a given name. *)
Lemma last_filter_cons {A} (P : A → Prop) `{∀ x, Decision (P x)} (x : A) (l : list A) :
  last (filter P (x :: l))
  = match last (filter P l) with
    | Some y => Some y
    | None => if decide (P x) then Some x else None
    end.
Proof.
  rewrite filter_cons. destruct (decide (P x)) as [Hx|Hx].
  - rewrite last_cons. by destruct (last (filter P l)).
  - by destruct (last (filter P l)).
Qed.

Lemma year_step_lookup (year : Z) (ps : list Portfolio) (acc : gmap string Q * Q)
    (k : string) :
  (foldl (year_step year) acc ps).1 !! k
  = match last (filter (λ p, name p = k) ps) with
    | Some p => Some (portfolio_value p year)
    | None => acc.1 !! k
    end.
Proof.
  revert acc. induction ps as [|p ps IH]; intros acc; [done |].
  simpl foldl. rewrite IH, last_filter_cons.
  destruct (last (filter (λ p, name p = k) ps)) as [q|]; [done |].
  simpl. destruct (decide (name p = k)) as [<-|Hne].
  - by rewrite lookup_insert_eq.
  - by rewrite lookup_insert_ne.
Qed.

(** X2: what a row holds under each key, whatever the names are: ["Total"]
    is the sum over all components; any other key holds the value of the
    last component of that name; without such a component ["Year"] holds the
    year and every other key is absent. *)
Theorem year_row_keys (ps : list Portfolio) (y : nat) (k : string) :
  year_row ps (Z.of_nat y) !! k
  = if decide (k = "Total") then Some (projected_total ps y)
    else match last (filter (λ p, name p = k) ps) with
         | Some p => Some (projected_value p y)
         | None => if decide (k = "Year") then Some (inject_Z (Z.of_nat y)) else None
         end.
Proof.
  destruct (decide (k = "Total")) as [->|Hk].
  - by rewrite year_row_total, projected_total_eq.
  - unfold year_row. rewrite lookup_insert_ne by done.
    rewrite year_step_lookup.
    destruct (last (filter (λ p, name p = k) ps)) as [p|].
    + by rewrite portfolio_value_projected.
    + simpl. destruct (decide (k = "Year")) as [->|Hy].
      * by rewrite lookup_singleton_eq.
      * by rewrite lookup_singleton_ne.
Qed.

(** ** Drawdown: dependence on the withdrawal *)

Lemma py_max0_mono (x y : Q) : x <= y → py_max0 x <= py_max0 y.
Proof.
  intros Hxy. unfold py_max0.
  destruct (Qlt_le_dec 0 x), (Qlt_le_dec 0 y); lra.
Qed.

Lemma running_balance_antitone (v b w1 w2 : Q) (y : nat) :
  0 <= 1 + b → w1 <= w2 →
  running_balance v b w2 y <= running_balance v b w1 y.
Proof.
  intros Hb Hw. induction y as [|y IH]; simpl; [lra |].
  apply Qmult_le_compat_r; lra.
Qed.

Lemma drawdown_entry_antitone (v b w1 w2 : Q) (y : nat) :
  0 <= 1 + b → w1 <= w2 →
  drawdown_entry v b w2 y <= drawdown_entry v b w1 y.
Proof.
  intros Hb Hw. destruct y as [|y]; simpl; [lra |].
  apply py_max0_mono.
  apply (running_balance_antitone v b w1 w2 (S y)); done.
Qed.

Lemma scenario_of_final (v b : Q) (years : Z) (rate : Q) (s : Scenario) :
  scenario_of v b years rate = Some s →
  (0 ≤ years)%Z ∧ final_value s = drawdown_entry v b (v * rate) (Z.to_nat years).
Proof.
  unfold scenario_of. rewrite drawdown_entries.
  destruct (Z.le_gt_cases 0 years) as [Hy|Hy].
  - replace (Z.to_nat (years + 1)) with (S (Z.to_nat years)) by lia.
    rewrite seq_S, fmap_app. simpl. rewrite last_snoc. simpl.
    by intros [= <-].
  - by replace (Z.to_nat (years + 1)) with 0%nat by lia.
Qed.

(** X5: withdrawing less never leaves less: for a non-negative starting
    value and a blended rate of at least -100%, the trajectory of the smaller
    withdrawal rate is at or above the trajectory of the larger rate in every
    year, and so is its final value. *)
Theorem drawdown_antitone_in_rate (v b r1 r2 : Q) (years : Z) :
  0 <= v → -1 <= b → r1 <= r2 →
  Forall2 Qle (drawdown v b (v * r2) years) (drawdown v b (v * r1) years)
  ∧ ∀ s1 s2, scenario_of v b years r1 = Some s1 →
             scenario_of v b years r2 = Some s2 →
             final_value s2 <= final_value s1.
Proof.
  intros Hv Hb Hr.
  assert (v * r1 <= v * r2) as Hw.
  { rewrite !(Qmult_comm v). apply Qmult_le_compat_r; done. }
  assert (0 <= 1 + b) as Hb' by lra.
  split.
  - rewrite !drawdown_entries. apply Forall2_fmap, Forall_Forall2_diag, Forall_forall.
    intros y _. by apply drawdown_entry_antitone.
  - intros s1 s2 Hs1 Hs2.
    apply scenario_of_final in Hs1 as [_ ->].
    apply scenario_of_final in Hs2 as [_ ->].
    by apply drawdown_entry_antitone.
Qed.

Lemma drawdown_antitone_in_rate_witness :
  Forall2 Qle (drawdown 64200 0.048 (64200 * 0.05) 30)
              (drawdown 64200 0.048 (64200 * 0.03) 30).
Proof.
  apply (drawdown_antitone_in_rate 64200 0.048 0.03 0.05 30); lra.
Defined.

(** X6: whatever the sign of the inputs, no scenario of the result reports
    a negative balance after year 0, and with at least one retirement year
    its final value is not negative. *)
Theorem scenario_entries_nonneg (value : Q) (rates : list Q) (years : Z)
    (assets : list RetirementPortfolio) (res : gmap string Scenario)
    (label : string) (s : Scenario) :
  calculate_withdrawal_scenarios value rates years assets = Some res →
  res !! label = Some s →
  (∀ (y : nat) (e : Q), portfolio_values s !! S y = Some e → 0 <= e)
  ∧ ((1 ≤ years)%Z → 0 <= final_value s).
Proof.
  unfold calculate_withdrawal_scenarios. intros Hres Hs.
  destruct (scenarios_fold_lookup _ _ _ _ _ _ _ _ Hres Hs)
    as [Hempty | (rate & _ & _ & Hsc)]; [by rewrite lookup_empty in Hempty |].
  split.
  - intros y e He.
    apply scenario_of_Some in Hsc as (_ & _ & Hp & _).
    rewrite Hp in He. apply drawdown_lookup_inv in He as ->.
    apply py_max0_nonneg.
  - intros Hy. apply scenario_of_final in Hsc as [_ ->].
    destruct (Z.to_nat years) as [|n] eqn:En; [lia |]. apply py_max0_nonneg.
Qed.

Lemma scenario_entries_nonneg_witness :
  ∃ res s,
    calculate_withdrawal_scenarios (-100) [0.5] 3
      [mkRetirementPortfolio "Cash" 1 0] = Some res
    ∧ res !! "50.0%" = Some s
    ∧ 0 <= final_value s.
Proof.
  destruct (calculate_withdrawal_scenarios (-100) [0.5] 3
              [mkRetirementPortfolio "Cash" 1 0])
    as [res|] eqn:Eres; [|vm_compute in Eres; discriminate].
  destruct (res !! "50.0%") as [s|] eqn:Es.
  - exists res, s. split; [done |]. split; [done |].
    apply (scenario_entries_nonneg _ _ _ _ _ _ _ Eres Es). lia.
  - vm_compute in Eres. injection Eres as <-. vm_compute in Es. discriminate.
Defined.

Lemma scenarios_negative_horizon (value : Q) (rates : list Q) (years : Z)
    (assets : list RetirementPortfolio) :
  (years < 0)%Z → rates ≠ [] →
  calculate_withdrawal_scenarios value rates years assets = None.
Proof.
  intros Hy Hne. destruct rates as [|r rates]; [done |].
  unfold calculate_withdrawal_scenarios. simpl.
  destruct (scenario_of value (blended_growth_rate assets) years r) as [s|] eqn:E.
  - apply scenario_of_final in E as [? _]. lia.
  - simpl. apply scenarios_fold_None.
Qed.

(** X7: the only way [calculate_withdrawal_scenarios] raises: a negative
    number of retirement years together with at least one rate (the empty
    trajectory has no last entry). *)
Theorem scenarios_raise_iff (value : Q) (rates : list Q) (years : Z)
    (assets : list RetirementPortfolio) :
  calculate_withdrawal_scenarios value rates years assets = None
  ↔ rates ≠ [] ∧ (years < 0)%Z.
Proof.
  split.
  - intros Hnone. split.
    + intros ->. discriminate Hnone.
    + destruct (Z.lt_ge_cases years 0) as [|Hy]; [done |].
      destruct (scenarios_fold_total value years assets rates ∅) as [res Hres]; [lia |].
      unfold calculate_withdrawal_scenarios in Hnone. congruence.
  - intros [Hne Hy]. by apply scenarios_negative_horizon.
Qed.

Lemma scenarios_raise_iff_witness :
  calculate_withdrawal_scenarios 1000 [0.04] (-1) [mkRetirementPortfolio "Bonds" 1 0.03]
  = None.
Proof. apply scenarios_raise_iff. split; [done | lia]. Defined.

Lemma scenarios_lookup_member (value : Q) (rates : list Q) (years : Z)
    (assets : list RetirementPortfolio) (res : gmap string Scenario) (r : Q) :
  calculate_withdrawal_scenarios value rates years assets = Some res →
  NoDup (percent_label <$> rates) → r ∈ rates →
  res !! percent_label r = scenario_of value (blended_growth_rate assets) years r.
Proof.
  unfold calculate_withdrawal_scenarios. intros Hres Hnd Hin.
  apply list_elem_of_split in Hin as (before & after & ->).
  rewrite fmap_app, fmap_cons in Hnd.
  apply NoDup_app in Hnd as (_ & _ & Hnd). apply NoDup_cons in Hnd as [Hnotin _].
  apply scenarios_fold_split in Hres as (mid & _ & Hres).
  apply scenarios_fold_cons in Hres as (s & Hs & Hres).
  rewrite (scenarios_fold_other _ _ _ _ _ _ _ Hres).
  - by rewrite lookup_insert_eq.
  - intros r' Hr' E. apply Hnotin. rewrite <- E. apply list_elem_of_fmap. eauto.
Qed.

(** X8: the order of the requested rates does not matter: when their
    labels are pairwise distinct, any rearrangement of the rates gives the
    same mapping (or raises alike). *)
Theorem scenarios_order_independent (value : Q) (rates rates' : list Q) (years : Z)
    (assets : list RetirementPortfolio) :
  rates ≡ₚ rates' → NoDup (percent_label <$> rates) →
  calculate_withdrawal_scenarios value rates years assets
  = calculate_withdrawal_scenarios value rates' years assets.
Proof.
  intros Hperm Hnd.
  assert (NoDup (percent_label <$> rates')) as Hnd' by (by rewrite <- Hperm).
  destruct (Z.lt_ge_cases years 0) as [Hy|Hy].
  - destruct rates as [|r rates].
    + apply Permutation_nil_l in Hperm. by subst.
    + assert (rates' ≠ []) as Hne.
      { intros ->. by apply Permutation_nil_r in Hperm. }
      by rewrite !scenarios_negative_horizon.
  - destruct (scenarios_fold_total value years assets rates ∅) as [res Hres]; [lia |].
    destruct (scenarios_fold_total value years assets rates' ∅) as [res' Hres']; [lia |].
    fold (calculate_withdrawal_scenarios value rates years assets) in Hres.
    fold (calculate_withdrawal_scenarios value rates' years assets) in Hres'.
    rewrite Hres, Hres'. f_equal. apply map_eq. intros l.
    destruct (decide (l ∈ percent_label <$> rates)) as [Hin|Hout].
    + apply list_elem_of_fmap in Hin as (r & -> & Hr).
      rewrite (scenarios_lookup_member _ _ _ _ _ _ Hres Hnd Hr).
      rewrite (scenarios_lookup_member _ _ _ _ _ _ Hres' Hnd'); [done |].
      by rewrite <- Hperm.
    + assert (l ∉ dom res) as Hl.
      { unfold calculate_withdrawal_scenarios in Hres.
        rewrite (scenarios_fold_dom _ _ _ _ _ _ Hres), dom_empty_L, (left_id_L ∅ (∪)).
        by rewrite elem_of_list_to_set. }
      assert (l ∉ dom res') as Hl'.
      { unfold calculate_withdrawal_scenarios in Hres'.
        rewrite (scenarios_fold_dom _ _ _ _ _ _ Hres'), dom_empty_L, (left_id_L ∅ (∪)).
        rewrite elem_of_list_to_set. by rewrite <- Hperm. }
      apply not_elem_of_dom in Hl, Hl'. by rewrite Hl, Hl'.
Qed.

Lemma scenarios_order_independent_witness :
  calculate_withdrawal_scenarios 64200 [0.03; 0.04; 0.05] 30
    [mkRetirementPortfolio "Bonds" 1 0.035]
  = calculate_withdrawal_scenarios 64200 [0.05; 0.03; 0.04] 30
      [mkRetirementPortfolio "Bonds" 1 0.035].
Proof.
  apply scenarios_order_independent.
  - change [0.05; 0.03; 0.04] with ([0.05] ++ [0.03; 0.04]).
    change [0.03; 0.04; 0.05] with ([0.03; 0.04] ++ [0.05]).
    apply Permutation_app_comm.
  - apply (bool_decide_unpack _). vm_compute. reflexivity.
Defined.

(** ** Labels of whole-percent rates *)

Lemma list_ascii_of_string_app (s t : string) :
  list_ascii_of_string (s +:+ t) = list_ascii_of_string s ++ list_ascii_of_string t.
Proof. induction s as [|c s IH]; [done |]. simpl. by rewrite <- IH. Qed.

Lemma string_app_inj_r (s1 s2 t : string) : s1 +:+ t = s2 +:+ t → s1 = s2.
Proof.
  intros H. apply (f_equal list_ascii_of_string) in H.
  rewrite !list_ascii_of_string_app in H. apply app_inv_tail in H.
  apply (f_equal string_of_list_ascii) in H.
  by rewrite !string_of_list_ascii_of_string in H.
Qed.

(** *** The rounding error of [round64] *)

Lemma Qpower2_pos (e : Z) : 0 < 2 ^ e.
Proof. apply Qpower_0_lt. reflexivity. Qed.

Lemma Qpower2_inject (j : Z) : (0 ≤ j)%Z → inject_Z (2 ^ j) == 2 ^ j.
Proof. intros Hj. rewrite Zpower_Qpower by done. reflexivity. Qed.

(** The binade of a positive number starts at or below it. *)
Lemma binade_le (x : Q) : 0 < x → 2 ^ binade x <= x.
Proof.
  intros Hx. unfold binade.
  assert (Qabs x == x) as Ha by (apply Qabs_pos; lra).
  destruct (Qlt_le_dec (Qabs x) 1) as [Hlt|Hge].
  - set (c := Qceiling (/ Qabs x)).
    assert (0 < / Qabs x) as Hinv by (apply Qinv_lt_0_compat; lra).
    pose proof (Qle_ceiling (/ Qabs x)) as Hc. fold c in Hc.
    assert (0 < c)%Z as Hcpos.
    { rewrite Zlt_Qlt. change (inject_Z 0) with 0. lra. }
    destruct (Z.log2_log2_up_spec c Hcpos) as [_ Hup].
    pose proof (Z.log2_up_nonneg c) as Hj.
    rewrite Zle_Qle in Hup. rewrite Qpower2_inject in Hup by done.
    rewrite Qpower_opp.
    apply Qle_shift_inv_r; [apply Qpower2_pos |].
    assert (Qabs x * / Qabs x == 1) as E by (apply Qmult_inv_r; lra).
    assert (Qabs x * / Qabs x <= Qabs x * 2 ^ Z.log2_up c) as H.
    { apply Qmult_le_l; lra. }
    rewrite <- Ha at 1. lra.
  - set (f := Qfloor (Qabs x)).
    assert (1 ≤ f)%Z as Hf.
    { change 1%Z with (Qfloor 1). apply Qfloor_resp_le. exact Hge. }
    destruct (Z.log2_spec f) as [Hlo _]; [lia |].
    rewrite Zle_Qle in Hlo. rewrite Qpower2_inject in Hlo by apply Z.log2_nonneg.
    pose proof (Qfloor_le (Qabs x)) as Hfl. fold f in Hfl. lra.
Qed.

(** A positive number and its double differ by at most half a unit in the
    last of 53 bits, or by half the smallest spacing [2^-1074]. *)
Lemma round64_error (x : Q) :
  0 < x →
  Qabs (round64 x - x) <= x * (1 # 9007199254740992) + (1 # 1000000000000).
Proof.
  intros Hx. unfold round64.
  destruct (Qeq_bool x 0) eqn:E0; [apply Qeq_bool_iff in E0; lra |].
  set (e := Z.max (binade x - 52) (-1074)).
  pose proof (Qpower2_pos e) as HP.
  pose proof (round_half_even_near (x / 2 ^ e)) as Hm.
  set (m := inject_Z (round_half_even (x / 2 ^ e))) in *.
  assert (m * 2 ^ e - x == (m - x / 2 ^ e) * 2 ^ e) as -> by (field; lra).
  rewrite Qabs_Qmult, (Qabs_pos (2 ^ e)) by lra.
  assert (Qabs (m - x / 2 ^ e) * 2 ^ e <= (1 # 2) * 2 ^ e) as H1.
  { apply Qmult_le_compat_r; lra. }
  assert ((1 # 2) * 2 ^ e <= x * (1 # 9007199254740992) + (1 # 1000000000000)) as H2.
  { assert ((1 # 2) * 2 ^ (-1074) <= 1 # 1000000000000) as Et
      by (apply Qle_bool_iff; vm_compute; reflexivity).
    assert (2 ^ (-52) == 1 # 4503599627370496) as Eu by reflexivity.
    assert (2 ^ (binade x - 52) == 2 ^ binade x * 2 ^ (-52)) as Eb.
    { replace (binade x - 52)%Z with (binade x + -52)%Z by lia.
      apply Qpower_plus. lra. }
    pose proof (binade_le x Hx) as Hb.
    unfold e. destruct (Z.max_spec (binade x - 52) (-1074)) as [[_ ->]|[_ ->]].
    - clear -Hx Et. revert Et. generalize ((1 # 2) * 2 ^ (-1074)). intros t Et. lra.
    - rewrite Eb, Eu. clear -Hx Hb. revert Hb.
      generalize (2 ^ binade x). intros B Hb. lra. }
  clear -H1 H2. revert H1 H2.
  generalize (Qabs (m - x / 2 ^ e) * 2 ^ e), ((1 # 2) * 2 ^ e).
  intros a b H1 H2. lra.
Qed.

(** The only integer within less than 1/2 of [x] is its rounding. *)
Lemma round_half_even_unique (x : Q) (n : Z) :
  Qabs (x - inject_Z n) < 1 # 2 → round_half_even x = n.
Proof.
  intros H. apply Qabs_Qlt_condition in H as [Hlo Hhi].
  pose proof (Qfloor_le x) as Hf1. pose proof (Qlt_floor x) as Hf2.
  rewrite inject_Z_plus in Hf2. change (inject_Z 1) with 1 in Hf2.
  assert (Qfloor x = n ∨ Qfloor x = (n - 1)%Z) as [Ef|Ef].
  { assert (Qfloor x < n + 1)%Z.
    { rewrite Zlt_Qlt, inject_Z_plus. change (inject_Z 1) with 1. lra. }
    assert (n - 2 < Qfloor x)%Z.
    { rewrite Zlt_Qlt.
      assert (inject_Z (n - 2) == inject_Z n - 2) as ->.
      { unfold Z.sub. rewrite inject_Z_plus. reflexivity. }
      lra. }
    lia. }
  - unfold round_half_even. rewrite Ef.
    assert (Qcompare (x - inject_Z n) (1 # 2) = Lt) as ->; [|reflexivity].
    rewrite <- Qlt_alt. lra.
  - unfold round_half_even. rewrite Ef.
    assert (inject_Z (n - 1) == inject_Z n - 1) as En.
    { unfold Z.sub. rewrite inject_Z_plus. reflexivity. }
    assert (Qcompare (x - inject_Z (n - 1)) (1 # 2) = Gt) as ->; [|lia].
    rewrite <- Qgt_alt. rewrite Ef in Hf1. lra.
Qed.

(** The float [k / 100] times 100 is within two roundings of [k], far less
    than half a tenth away from it. *)
Lemma percent_label_whole (k : Z) :
  (0 ≤ k ≤ 100000000000000)%Z →
  percent_label (round64 (inject_Z k / 100)) = pretty k +:+ ".0%".
Proof.
  intros [Hk0 Hk1].
  destruct (decide (k = 0%Z)) as [->|Hne]; [vm_compute; reflexivity |].
  assert (1 <= inject_Z k) as HK0.
  { change 1 with (inject_Z 1). rewrite <- Zle_Qle. lia. }
  assert (inject_Z k <= 100000000000000) as HK1.
  { change 100000000000000 with (inject_Z 100000000000000). by rewrite <- Zle_Qle. }
  assert (inject_Z (k * 10) == inject_Z k * 10) as HK10
    by (rewrite inject_Z_mult; reflexivity).
  revert HK0 HK1 HK10. generalize (inject_Z k). intros K HK0 HK1 HK10.
  assert (K / 100 * 100 == K) as Hx by field.
  revert Hx. generalize (K / 100). intros x Hx.
  assert (0 < x) as Hxpos by lra.
  pose proof (round64_error x Hxpos) as E1.
  apply Qabs_Qle_condition in E1 as [E1a E1b].
  revert E1a E1b. generalize (round64 x). intros r E1a E1b.
  assert (0 < r * 100) as Hypos by lra.
  pose proof (round64_error (r * 100) Hypos) as E2.
  apply Qabs_Qle_condition in E2 as [E2a E2b].
  unfold percent_label, fl_mul.
  revert E2a E2b. generalize (round64 (r * 100)). intros p E2a E2b.
  assert (0 <= p) as Hp by lra.
  assert (round_half_even (Qabs p * 10) = (k * 10)%Z) as ->.
  { apply round_half_even_unique. apply Qabs_Qlt_condition.
    pose proof (Qabs_pos p Hp) as Habs. revert Habs.
    generalize (Qabs p). intros a Habs. split; lra. }
  rewrite Z.div_mul, Z_mod_mult by done.
  destruct (Qlt_le_dec r 0) as [Hneg|_]; [lra |].
  reflexivity.
Qed.

(** X10: the float of a whole-percent rate, [k / 100] with
    [0 <= k <= 10^14], is labelled ["k.0%"], so distinct whole-percent rates
    never share a label and the result has one scenario per requested
    rate. *)
Theorem whole_percent_rates_distinct (value : Q) (ks : list Z) (years : Z)
    (assets : list RetirementPortfolio) :
  Forall (λ k, (0 ≤ k ≤ 100000000000000)%Z) ks → NoDup ks → (0 ≤ years)%Z →
  ∃ res,
    calculate_withdrawal_scenarios value
      ((λ k, round64 (inject_Z k / 100)) <$> ks) years assets
    = Some res
    ∧ dom res = list_to_set ((λ k, pretty k +:+ ".0%") <$> ks)
    ∧ size res = length ks.
Proof.
  intros Hpos Hnd Hy. unfold calculate_withdrawal_scenarios.
  destruct (scenarios_fold_total value years assets
              ((λ k, round64 (inject_Z k / 100)) <$> ks) ∅ Hy) as [res Hres].
  exists res. split; [done |].
  assert (percent_label <$> ((λ k, round64 (inject_Z k / 100)) <$> ks)
          = (λ k, pretty k +:+ ".0%") <$> ks) as Hlabels.
  { rewrite <- list_fmap_compose. apply Forall_fmap_ext.
    eapply Forall_impl; [exact Hpos |]. intros k Hk. by apply percent_label_whole. }
  assert (dom res = list_to_set ((λ k, pretty k +:+ ".0%") <$> ks)) as Hdom.
  { rewrite (scenarios_fold_dom _ _ _ _ _ _ Hres), dom_empty_L, (left_id_L ∅ (∪)).
    by rewrite Hlabels. }
  split; [done |].
  rewrite <- size_dom, Hdom, size_list_to_set, length_fmap; [done |].
  apply NoDup_fmap_2; [|done].
  intros k1 k2 Heq. apply string_app_inj_r in Heq. by apply (inj pretty) in Heq.
Qed.

Lemma whole_percent_rates_distinct_witness :
  ∃ res,
    calculate_withdrawal_scenarios 64200
      ((λ k, round64 (inject_Z k / 100)) <$> [3; 4; 5; 6; 7]%Z) 30
      [mkRetirementPortfolio "Bonds" 1 0.035] = Some res
    ∧ dom res = list_to_set ((λ k, pretty k +:+ ".0%") <$> [3; 4; 5; 6; 7]%Z)
    ∧ size res = 5%nat.
Proof.
  apply (whole_percent_rates_distinct 64200 [3; 4; 5; 6; 7]%Z 30
           [mkRetirementPortfolio "Bonds" 1 0.035]).
  - repeat constructor; lia.
  - apply (bool_decide_unpack _). vm_compute. reflexivity.
  - lia.
Defined.

(** ** Session actions and validity *)

Lemma templates_lookup (n : string) (ps : list Portfolio) :
  templates !! n = Some ps →
  ps ≠ [] ∧ validate_portfolios_loop ps = true
  ∧ NoDup (name <$> ps) ∧ ("Year" ∉ name <$> ps) ∧ ("Total" ∉ name <$> ps).
Proof.
  intros H. apply elem_of_list_to_map_2 in H.
  rewrite !elem_of_cons, elem_of_nil in H.
  destruct H as [H|[H|[H|[]]]]; injection H as _ ->;
    (split; [done |]); (split; [vm_compute; reflexivity |]);
    (split; [|split]); apply (bool_decide_unpack _); vm_compute; reflexivity.
Qed.

Lemma retirement_templates_lookup (n : string) (ps : list RetirementPortfolio) (st : session_state) :
  retirement_templates !! n = Some ps →
  validate_retirement_portfolios (mkSession (portfolios st) ps) = true.
Proof.
  intros H. apply elem_of_list_to_map_2 in H.
  rewrite !elem_of_cons, elem_of_nil in H.
  destruct H as [H|[H|[H|[]]]]; injection H as _ ->.
  all: unfold validate_retirement_portfolios; cbn [retirement_portfolios];
    vm_compute; reflexivity.
Qed.

(** X12: every template is a valid configuration: after [apply_template]
    with a known name the accumulation list is valid and its names are
    pairwise distinct and none of ["Year"], ["Total"]; after
    [apply_retirement_template] with a known name the retirement list is
    valid; an unknown name changes nothing. *)
Theorem templates_valid (n : string) (st : session_state) :
  (is_Some (templates !! n) →
     validate_portfolios (apply_template n st) = true
     ∧ NoDup (name <$> portfolios (apply_template n st))
     ∧ ("Year" ∉ name <$> portfolios (apply_template n st))
     ∧ ("Total" ∉ name <$> portfolios (apply_template n st)))
  ∧ (is_Some (retirement_templates !! n) →
     validate_retirement_portfolios (apply_retirement_template n st) = true)
  ∧ (templates !! n = None → apply_template n st = st)
  ∧ (retirement_templates !! n = None → apply_retirement_template n st = st).
Proof.
  split; [|split; [|split]].
  - intros [ps Hps]. unfold apply_template. rewrite Hps.
    by apply templates_lookup in Hps as [_ Hps].
  - intros [ps Hps]. unfold apply_retirement_template. rewrite Hps.
    by eapply retirement_templates_lookup.
  - intros H. unfold apply_template. by rewrite H.
  - intros H. unfold apply_retirement_template. by rewrite H.
Qed.

Lemma templates_valid_witness :
  validate_portfolios (apply_template "Balanced" initial_session) = true
  ∧ NoDup (name <$> portfolios (apply_template "Balanced" initial_session))
  ∧ ("Year" ∉ name <$> portfolios (apply_template "Balanced" initial_session))
  ∧ ("Total" ∉ name <$> portfolios (apply_template "Balanced" initial_session)).
Proof.
  apply (templates_valid "Balanced" initial_session). vm_compute. eauto.
Defined.

Lemma py_pop_length {A} (i : nat) (l l' : list A) :
  py_pop i l = Some l' → length l = S (length l').
Proof.
  unfold py_pop. destruct (Nat.ltb_spec i (length l)) as [Hi|]; [|done].
  intros [= <-]. rewrite length_delete; [lia |]. by apply lookup_lt_is_Some.
Qed.

Lemma ui_step_nonempty (a : ui_action) (st st' : session_state) :
  ui_step a st = Some st' →
  portfolios st ≠ [] ∧ retirement_portfolios st ≠ [] →
  portfolios st' ≠ [] ∧ retirement_portfolios st' ≠ [].
Proof.
  intros Hstep [Hp Hr]. destruct a; simpl in Hstep.
  - injection Hstep as <-. unfold apply_template.
    destruct (templates !! template_name) as [ps|] eqn:E; [|done].
    split; [|done]. simpl. by apply templates_lookup in E as [E _].
  - injection Hstep as <-. unfold apply_retirement_template.
    destruct (retirement_templates !! template_name) as [ps|] eqn:E; [|done].
    split; [done |]. simpl.
    apply (retirement_templates_lookup _ _ st) in E. by destruct ps.
  - injection Hstep as <-. split; [|done]. simpl. by destruct (portfolios st).
  - injection Hstep as <-. split; [done |]. simpl.
    by destruct (retirement_portfolios st).
  - unfold delete_portfolio in Hstep.
    destruct (Nat.ltb_spec 1 (length (portfolios st))) as [Hlen|_].
    + destruct (py_pop i (portfolios st)) as [ps|] eqn:E; [|done].
      injection Hstep as <-. split; [|done]. simpl.
      apply py_pop_length in E. destruct ps; [simpl in E; lia | done].
    + by injection Hstep as <-.
  - unfold delete_retirement_asset in Hstep.
    destruct (Nat.ltb_spec 1 (length (retirement_portfolios st))) as [Hlen|_].
    + destruct (py_pop i (retirement_portfolios st)) as [ps|] eqn:E; [|done].
      injection Hstep as <-. split; [done |]. simpl.
      apply py_pop_length in E. destruct ps; [simpl in E; lia | done].
    + by injection Hstep as <-.
  - injection Hstep as <-. split; [|done]. simpl.
    intros E. apply (f_equal length) in E. rewrite length_insert in E.
    by destruct (portfolios st).
  - injection Hstep as <-. split; [done |]. simpl.
    intros E. apply (f_equal length) in E. rewrite length_insert in E.
    by destruct (retirement_portfolios st).
Qed.

(** X13: no sequence of templates, additions, deletions and edits empties
    either list: every session reachable from the initial one has at least
    one accumulation portfolio and at least one retirement asset. *)
Theorem reachable_nonempty (st : session_state) :
  reachable st → portfolios st ≠ [] ∧ retirement_portfolios st ≠ [].
Proof.
  induction 1 as [|st a st' _ IH Hstep]; [done |].
  by eapply ui_step_nonempty.
Qed.

Lemma reachable_nonempty_witness :
  portfolios (add_portfolio initial_session) ≠ []
  ∧ retirement_portfolios (add_portfolio initial_session) ≠ [].
Proof.
  apply reachable_nonempty.
  apply (reachable_step initial_session AddPortfolio); [constructor | reflexivity].
Defined.

(** ** The analysis tab *)

Lemma growth_frame_last (ps : list Portfolio) (years : Z) :
  (0 ≤ years)%Z →
  last (calculate_portfolio_growth ps years) = Some (year_row ps years).
Proof.
  intros Hy. unfold calculate_portfolio_growth.
  rewrite py_range_succ, fmap_app by done. simpl. apply last_snoc.
Qed.

Lemma frame_last_total_value (ps : list Portfolio) (years : Z) :
  (0 ≤ years)%Z →
  frame_last_total (calculate_portfolio_growth ps years)
  = Some (projected_total ps (Z.to_nat years)).
Proof.
  intros Hy. unfold frame_last_total. rewrite growth_frame_last by done. simpl.
  rewrite <- (Z2Nat.id years) at 1 by done.
  by rewrite year_row_total, projected_total_eq.
Qed.

Lemma frame_last_total_negative (ps : list Portfolio) (years : Z) :
  (years < 0)%Z → frame_last_total (calculate_portfolio_growth ps years) = None.
Proof.
  intros Hy. unfold frame_last_total, calculate_portfolio_growth, py_range.
  by replace (Z.to_nat (years + 1)) with 0%nat by lia.
Qed.

Lemma projected_value_ge_initial (p : Portfolio) (y : nat) :
  0 <= rate p → 0 <= annual p → 0 <= initial p → initial p <= projected_value p y.
Proof.
  intros Hr Ha Hi. induction y as [|y IH]; [simpl; lra |].
  pose proof (projected_value_mono p y Hr Ha Hi). lra.
Qed.



Lemma row_has_year_year_row (ps : list Portfolio) (i year : Z) :
  "Year" ∉ name <$> ps →
  row_has_year year (year_row ps i) = true ↔ i = year.
Proof.
  intros Hname. unfold row_has_year. rewrite year_row_year by done.
  rewrite Qeq_bool_iff. apply inject_Z_injective.
Qed.

Lemma filter_none {A} (P : A → Prop) `{∀ x, Decision (P x)} (l : list A) :
  Forall (λ x, ¬ P x) l → filter P l = [].
Proof.
  induction 1 as [|x l Hx _ IH]; [done |]. by rewrite filter_cons_False.
Qed.

Lemma frame_year_row_seq (ps : list Portfolio) (year : Z) (a n : nat) :
  "Year" ∉ name <$> ps →
  head (filter (λ row, row_has_year year row = true)
          (year_row ps <$> (Z.of_nat <$> seq a n)))
  = if decide (Z.of_nat a ≤ year < Z.of_nat (a + n))%Z
    then Some (year_row ps year) else None.
Proof.
  intros Hname. revert a. induction n as [|n IH]; intros a.
  - simpl. destruct (decide _) as [H|_]; [lia | done].
  - simpl seq. rewrite !fmap_cons, filter_cons.
    destruct (decide (row_has_year year (year_row ps (Z.of_nat a)) = true)) as [Hrow|Hrow].
    + apply row_has_year_year_row in Hrow; [|done]. subst year. simpl.
      destruct (decide _) as [_|H]; [done | lia].
    + rewrite IH.
      assert (Z.of_nat a ≠ year) as Hne
        by (intros E; apply Hrow; by apply row_has_year_year_row).
      destruct (decide _) as [H1|H1], (decide _) as [H2|H2]; try done; lia.
Qed.

Lemma frame_year_row_found (ps : list Portfolio) (years year : Z) :
  "Year" ∉ name <$> ps → (0 ≤ year ≤ years)%Z →
  frame_year_row (calculate_portfolio_growth ps years) year = Some (year_row ps year).
Proof.
  intros Hname Hy. unfold frame_year_row, calculate_portfolio_growth, py_range.
  rewrite frame_year_row_seq by done.
  destruct (decide _) as [_|H]; [done | lia].
Qed.

Lemma year_row_total_Z (ps : list Portfolio) (m : Z) :
  (0 ≤ m)%Z → year_row ps m !! "Total" = Some (projected_total ps (Z.to_nat m)).
Proof.
  intros Hm. rewrite <- (Z2Nat.id m) at 1 by done.
  by rewrite year_row_total, projected_total_eq.
Qed.

(** The row the milestone table shows for year [m]. *)
Lemma milestone_step_found (symbol : string) (ps : list Portfolio) (years m : Z)
    (data : list MilestoneRow) :
  "Year" ∉ name <$> ps → (0 ≤ m)%Z →
  milestone_step symbol (calculate_portfolio_growth ps years)
    (py_sum (initial <$> ps)) years (Some data) m
  = Some (data ++ (milestone_of symbol ps <$> filter (λ m, (m ≤ years)%Z) [m])).
Proof.
  intros Hname Hm. unfold milestone_step. simpl.
  rewrite filter_cons, filter_nil.
  destruct (Z.leb_spec m years) as [Hle|Hgt].
  - rewrite decide_True by done.
    rewrite frame_year_row_found by (done || lia). simpl.
    by rewrite year_row_total_Z by done.
  - rewrite decide_False by lia. simpl. by rewrite (right_id_L [] (++)).
Qed.

Lemma milestones_found (symbol : string) (ps : list Portfolio) (years : Z) :
  "Year" ∉ name <$> ps → (0 ≤ years)%Z →
  foldl (milestone_step symbol (calculate_portfolio_growth ps years)
           (py_sum (initial <$> ps)) years) (Some []) [5; 10; years]%Z
  = Some (milestone_of symbol ps <$> filter (λ m, (m ≤ years)%Z) [5; 10; years]%Z).
Proof.
  intros Hname Hy. cbn [foldl].
  rewrite !milestone_step_found by (done || lia).
  f_equal. simpl app.
  change [5; 10; years]%Z with ([5]%Z ++ [10]%Z ++ [years]).
  by rewrite !filter_app, !fmap_app, (assoc_L (++)).
Qed.

Lemma display_unfold (st : session_state) (years retirement_length : Z)
    (rates : list Q) (symbol : string) :
  "Year" ∉ name <$> portfolios st → (0 ≤ years)%Z →
  display_portfolio_analysis st years retirement_length rates symbol
  = match rates with
    | [] => Some None
    | _ => Some <$> calculate_withdrawal_scenarios
                      (projected_total (portfolios st) (Z.to_nat years)) rates
                      retirement_length (retirement_portfolios st)
    end ≫= λ scenarios,
      Some (mkAnalysis
              (symbol +:+ format_amount (projected_total (portfolios st) (Z.to_nat years)))
              (milestone_of symbol (portfolios st)
                 <$> filter (λ m, (m ≤ years)%Z) [5; 10; years]%Z)
              scenarios).
Proof.
  intros Hname Hy. unfold display_portfolio_analysis.
  rewrite frame_last_total_value by lia.
  cbn [mbind option_bind].
  rewrite milestones_found by (done || lia).
  done.
Qed.

(** X18: the analysis of a frame whose ["Year"] column is not taken over by
    a component raises in two cases only: a negative horizon, or a negative
    retirement length with at least one withdrawal rate selected. *)
Theorem display_raise_iff (st : session_state) (years retirement_length : Z)
    (rates : list Q) (symbol : string) :
  "Year" ∉ name <$> portfolios st →
  display_portfolio_analysis st years retirement_length rates symbol = None
  ↔ (years < 0)%Z ∨ (rates ≠ [] ∧ (retirement_length < 0)%Z).
Proof.
  intros Hname.
  destruct (Z.lt_ge_cases years 0) as [Hy|Hy].
  - unfold display_portfolio_analysis.
    rewrite frame_last_total_negative by done. simpl. split; [by left | done].
  - rewrite display_unfold by (done || lia).
    destruct rates as [|r rates]; simpl.
    + split; [done |]. intros [?|[? _]]; [lia | done].
    + destruct (calculate_withdrawal_scenarios _ (r :: rates) retirement_length _)
        as [res|] eqn:E; simpl.
      * split; [done |]. intros [?|[_ Hneg]]; [lia |].
        by rewrite scenarios_negative_horizon in E.
      * split; [|done]. intros _. right. split; [done |].
        destruct (Z.lt_ge_cases retirement_length 0) as [|Hr]; [done |].
        destruct (scenarios_fold_total (projected_total (portfolios st) (Z.to_nat years))
                    retirement_length (retirement_portfolios st) (r :: rates) ∅)
          as [res Hres]; [lia |].
        unfold calculate_withdrawal_scenarios in E. congruence.
Qed.

Lemma display_raise_iff_witness :
  display_portfolio_analysis initial_session (-1) 30 [0.04] "$" = None.
Proof.
  apply display_raise_iff.
  - apply (bool_decide_unpack _). vm_compute. reflexivity.
  - left. lia.
Defined.

(** X19: for a horizon of at least 0 and no component named ["Year"], the
    metric shows the final total of the projection, and the milestone table
    has one row for each of the years 5, 10 and the horizon that is not
    beyond the horizon, in this order, each with the total of that year and
    its excess over the sum of the initial values; the last row is always
    the horizon, and it appears twice when the horizon is 5 or 10. *)
Theorem display_milestones (st : session_state) (years retirement_length : Z)
    (rates : list Q) (symbol : string) (a : Analysis) :
  "Year" ∉ name <$> portfolios st → (0 ≤ years)%Z →
  display_portfolio_analysis st years retirement_length rates symbol = Some a →
  analysis_metric a
  = symbol +:+ format_amount (projected_total (portfolios st) (Z.to_nat years))
  ∧ analysis_milestones a
    = milestone_of symbol (portfolios st)
      <$> filter (λ m, (m ≤ years)%Z) [5; 10; years]%Z
  ∧ (milestone_total_value <$> last (analysis_milestones a)) = Some (analysis_metric a).
Proof.
  intros Hname Hy. rewrite display_unfold by (done || lia).
  destruct (match rates with [] => Some None | _ => _ end) as [sc|]; [|done].
  simpl. intros [= <-]. simpl. split; [done |]. split; [done |].
  change [5; 10; years]%Z with ([5; 10]%Z ++ [years]).
  rewrite filter_app, fmap_app.
  rewrite (filter_cons_True _ years []) by lia. rewrite filter_nil.
  simpl. by rewrite last_snoc.
Qed.

Lemma display_milestones_witness :
  ∃ a, display_portfolio_analysis initial_session 10 30 [] "$" = Some a
       ∧ (milestone <$> analysis_milestones a) = ["Year 5"; "Year 10"; "Year 10"]
       ∧ (milestone_total_value <$> last (analysis_milestones a))
         = Some (analysis_metric a).
Proof.
  destruct (display_portfolio_analysis initial_session 10 30 [] "$")
    as [a|] eqn:E; [|vm_compute in E; discriminate].
  exists a. split; [done |].
  destruct (display_milestones initial_session 10 30 [] "$" a) as (_ & Hm & Hlast).
  - apply (bool_decide_unpack _). vm_compute. reflexivity.
  - lia.
  - exact E.
  - split; [|exact Hlast]. rewrite Hm. reflexivity.
Defined.

Lemma year_row_year_taken (ps : list Portfolio) (p : Portfolio) (i : nat) :
  last (filter (λ q, name q = "Year") ps) = Some p →
  year_row ps (Z.of_nat i) !! "Year" = Some (projected_value p i).
Proof.
  intros Hp. unfold year_row. rewrite lookup_insert_ne by done.
  by rewrite year_step_lookup, Hp, portfolio_value_projected.
Qed.

Lemma frame_year_row_taken (ps : list Portfolio) (p : Portfolio) (years year : Z) :
  last (filter (λ q, name q = "Year") ps) = Some p →
  0 <= rate p → 0 <= annual p → 0 <= initial p → inject_Z year < initial p →
  frame_year_row (calculate_portfolio_growth ps years) year = None.
Proof.
  intros Hp Hr Ha Hi Hlt. unfold frame_year_row, calculate_portfolio_growth, py_range.
  rewrite filter_none; [done |].
  rewrite !Forall_fmap. apply Forall_forall. intros i _. simpl.
  unfold row_has_year. rewrite (year_row_year_taken _ _ _ Hp).
  intros E. apply Qeq_bool_iff in E.
  pose proof (projected_value_ge_initial p i Hr Ha Hi). lra.
Qed.

(** X20: a component named ["Year"] takes over the ["Year"] column, and the
    milestone lookup then finds no row: when the last component of that name
    has non-negative rate and contribution and an initial value above the
    horizon, the analysis raises, valid configuration or not. *)
Theorem display_year_column_taken (st : session_state) (years retirement_length : Z)
    (rates : list Q) (symbol : string) (p : Portfolio) :
  last (filter (λ q, name q = "Year") (portfolios st)) = Some p →
  0 <= rate p → 0 <= annual p → inject_Z years < initial p →
  display_portfolio_analysis st years retirement_length rates symbol = None.
Proof.
  intros Hp Hr Ha Hlt. unfold display_portfolio_analysis.
  destruct (Z.lt_ge_cases years 0) as [Hy|Hy].
  { by rewrite frame_last_total_negative. }
  rewrite frame_last_total_value by lia. cbn [mbind option_bind].
  assert (0 <= initial p) as Hi.
  { rewrite Zle_Qle in Hy. change (inject_Z 0) with 0 in Hy. lra. }
  assert (foldl (milestone_step symbol
                   (calculate_portfolio_growth (portfolios st) years)
                   (py_sum (initial <$> portfolios st)) years)
                (Some []) [5; 10; years]%Z = None) as ->; [|done].
  cbn [foldl].
  generalize (milestone_step symbol (calculate_portfolio_growth (portfolios st) years)
                (py_sum (initial <$> portfolios st)) years
                (milestone_step symbol (calculate_portfolio_growth (portfolios st) years)
                   (py_sum (initial <$> portfolios st)) years (Some []) 5) 10).
  intros [data|]; [|done].
  unfold milestone_step. cbn [mbind option_bind].
  rewrite Z.leb_refl, (frame_year_row_taken _ p) by done. done.
Qed.

Lemma display_year_column_taken_witness :
  validate_portfolios (mkSession [mkPortfolio "Year" 50000 10000 0.07] []) = true
  ∧ display_portfolio_analysis (mkSession [mkPortfolio "Year" 50000 10000 0.07] [])
      15 30 [] "$" = None.
Proof.
  split; [vm_compute; reflexivity |].
  apply (display_year_column_taken _ 15 30 [] "$" (mkPortfolio "Year" 50000 10000 0.07));
    [reflexivity | cbn [rate annual initial]..].
  - lra.
  - lra.
  - change (inject_Z 15) with 15. lra.
Defined.

Lemma validate_portfolios_iff_witness :
  Forall component_ok (portfolios (apply_template "Conservative" initial_session)).
Proof.
  apply validate_portfolios_iff. vm_compute. reflexivity.
Defined.
